(** * Notes app: the state container of [src/App.vue]

    A shallow embedding of the [<script setup>] block of [src/App.vue]:
    the reactive state ([notes], [currentNote], [searchQuery], the editor
    fields), the methods that act on it ([createNewNote], [editNote],
    [saveNote], [deleteNote], [closeEditor], [applyFormat]), the computed
    view [filteredNotes] and the mount hook that loads the collection from
    [localStorage].

    Modelling choices.
    - A JavaScript string is the list of its UTF-16 code units.
    - Note objects live in a heap, [notes] and [currentNote] hold
      references: [editNote] stores the clicked object itself in
      [currentNote], and [saveNote] mutates that object in place.
    - What the environment supplies is an argument of the method that asks
      for it: the clock readings of [Date.now()] and [new Date()], the
      answer of [confirm], the selection of the textarea, the item stored
      in [localStorage].  [alert] calls are logged in the state.
    - The functions of the language the code calls are written out:
      [trim], [substring], [includes], [toLowerCase] with the case
      tables of Unicode 14.0, [toISOString], [JSON.parse] and
      [JSON.stringify] with the conversion of numbers from and to text.
      [filteredNotes] takes the case mapping as an argument; the
      component passes [toLowerCase].
    - The state holds an array of note objects as [saveNote] makes them.
      [JSON.parse] can return any value and the mount hook stores it
      unchecked: what is no such array is reported by the result of the
      hook and is not a state of this model.
    - The watcher of [notes] is its callback on the item of
      [localStorage]; [formatDate] takes what it asks of [Date] as an
      environment. *)

From Stdlib Require Import ZArith NArith Ascii String List Lia.
From stdpp Require Import base option list gmap.

Open Scope Z_scope.

(** ** JavaScript strings *)

Module JS.

(** A string value: its sequence of 16-bit code units. *)
Definition jsstring := list N.

(** The code units of an ASCII literal. *)
Definition str (s : string) : jsstring :=
  map N_of_ascii (list_ascii_of_string s).
Arguments str s%_string.

(** ToBoolean of a string: only the empty string is falsy. *)
Definition truthy (s : jsstring) : bool :=
  match s with
  | [] => false
  | _ :: _ => true
  end.

(** ECMAScript WhiteSpace and LineTerminator code points, the characters
    [String.prototype.trim] strips: TAB, VT, FF, SP, NBSP, ZWNBSP, the
    Unicode space separators (Zs), and LF, CR, LS, PS. *)
Definition isWhiteSpace (c : N) : bool :=
  (N.eqb c 9 || N.eqb c 11 || N.eqb c 12 || N.eqb c 32 || N.eqb c 160
   || N.eqb c 65279 || N.eqb c 5760
   || (N.leb 8192 c && N.leb c 8202)
   || N.eqb c 8239 || N.eqb c 8287 || N.eqb c 12288
   || N.eqb c 10 || N.eqb c 13 || N.eqb c 8232 || N.eqb c 8233)%bool%N.

Fixpoint trimStart (s : jsstring) : jsstring :=
  match s with
  | c :: s' => if isWhiteSpace c then trimStart s' else s
  | [] => []
  end.

Definition trimEnd (s : jsstring) : jsstring := rev (trimStart (rev s)).

(** [s.trim()] *)
Definition trim (s : jsstring) : jsstring := trimEnd (trimStart s).

(** [s.substring(start, end)]: both indices are clamped to the length and
    swapped when [start > end]. *)
Definition substring (s : jsstring) (start end_ : nat) : jsstring :=
  let len := length s in
  let finalStart := Nat.min start len in
  let finalEnd := Nat.min end_ len in
  let from := Nat.min finalStart finalEnd in
  let to := Nat.max finalStart finalEnd in
  take (to - from) (drop from s).

(** [s.substring(start)]: the end defaults to the length. *)
Definition substringFrom (s : jsstring) (start : nat) : jsstring :=
  substring s start (length s).

(** Does [p] start [s]? *)
Fixpoint startsWith (p s : jsstring) : bool :=
  match p, s with
  | [], _ => true
  | _ :: _, [] => false
  | a :: p', b :: s' => N.eqb a b && startsWith p' s'
  end.

(** [s.includes(q)]: [q] occurs in [s] at some index. *)
Fixpoint includes (q s : jsstring) : bool :=
  startsWith q s ||
  match s with
  | [] => false
  | _ :: s' => includes q s'
  end.

(** *** [Date.prototype.toISOString]

    A time value is a number of milliseconds since the epoch.  The civil
    date of a day number is computed in the proleptic Gregorian calendar
    from the count of days since 0000-03-01. *)

Definition msPerDay : Z := 86400000.

Definition civil_from_days (z : Z) : Z * Z * Z :=
  let z := z + 719468 in
  let era := z / 146097 in
  let doe := z - era * 146097 in
  let yoe := (doe - doe / 1460 + doe / 36524 - doe / 146096) / 365 in
  let doy := doe - (365 * yoe + yoe / 4 - yoe / 100) in
  let mp := (5 * doy + 2) / 153 in
  let d := doy - (153 * mp + 2) / 5 + 1 in
  let m := if mp <? 10 then mp + 3 else mp - 9 in
  let y := yoe + era * 400 + (if m <=? 2 then 1 else 0) in
  (y, m, d).

(** The [n] low decimal digits of [v], most significant first. *)
Fixpoint digits (n : nat) (v : Z) : jsstring :=
  match n with
  | O => []
  | S n' => digits n' (v / 10) ++ [Z.to_N (48 + v mod 10)]
  end.

(** Years 0 to 9999 print with four digits, the others with a sign and six. *)
Definition isoYear (y : Z) : jsstring :=
  if (0 <=? y) && (y <=? 9999) then digits 4 y
  else if y <? 0 then str "-" ++ digits 6 (- y)
  else str "+" ++ digits 6 y.

Definition toISOString (t : Z) : jsstring :=
  let day := t / msPerDay in
  let ms := t mod msPerDay in
  let '(y, m, d) := civil_from_days day in
  isoYear y ++ str "-" ++ digits 2 m ++ str "-" ++ digits 2 d
    ++ str "T" ++ digits 2 (ms / 3600000)
    ++ str ":" ++ digits 2 (ms / 60000 mod 60)
    ++ str ":" ++ digits 2 (ms / 1000 mod 60)
    ++ str "." ++ digits 3 (ms mod 1000) ++ str "Z".

(** *** Number values

    A Number is an IEEE 754 binary64 value.  [roundToNumber p q] is the
    Number value of the rational [p / q], for positive [p] and [q]: the
    nearest [m * 2 ^ t] with [m] below [2 ^ 53] and [t] from [-1074], the
    one with the even [m] when two are as near, given as [(m, t)];
    [None] stands for [Infinity]. *)
Definition roundToNumber (p q : Z) : option (Z * Z) :=
  let e0 := Z.log2 p - Z.log2 q in
  let below := if 0 <=? e0 then p <? q * 2 ^ e0 else p * 2 ^ (- e0) <? q in
  let e := if below then e0 - 1 else e0 in
  let t := Z.max e (-1022) - 52 in
  let n := if 0 <=? t then p else p * 2 ^ (- t) in
  let d := if 0 <=? t then q * 2 ^ t else q in
  let m := n / d in
  let r := n mod d in
  let m' :=
    if (d <? 2 * r) || ((d =? 2 * r) && Z.odd m) then m + 1 else m in
  if (1024 <=? e) || ((e =? 1023) && (m' =? 2 ^ 53)) then None
  else Some (m', t).

(** The integer that [m * 2 ^ t] is, when it is one. *)
Definition integral (m t : Z) : option Z :=
  if 0 <=? t then Some (m * 2 ^ t)
  else if m mod 2 ^ (- t) =? 0 then Some (m / 2 ^ (- t))
  else None.

(** The Number value of [a * 10 ^ e], for a positive integer [a], when
    that value is an integer. *)
Definition integerValue (a e : Z) : option Z :=
  match (if 0 <=? e then roundToNumber (a * 10 ^ e) 1
         else roundToNumber a (10 ^ (- e))) with
  | Some (m, t) => integral m t
  | None => None
  end.

(** *** [String.prototype.toLowerCase]

    The string is read as its code points, a surrogate that has no
    partner standing for itself; each code point is replaced by its
    lower-case mapping of the Unicode Character Database (version 14.0),
    without regard to a locale; the result is written back in UTF-16. *)

Definition isLeadingSurrogate (c : N) : bool :=
  (N.leb 0xD800 c && N.leb c 0xDBFF)%N.

Definition isTrailingSurrogate (c : N) : bool :=
  (N.leb 0xDC00 c && N.leb c 0xDFFF)%N.

(** StringToCodePoints *)
Fixpoint codePoints (s : jsstring) : list N :=
  match s with
  | [] => []
  | c :: s' =>
      if isLeadingSurrogate c then
        match s' with
        | d :: s'' =>
            if isTrailingSurrogate d
            then (0x10000 + (c - 0xD800) * 0x400 + (d - 0xDC00))%N
                 :: codePoints s''
            else c :: codePoints s'
        | [] => [c]
        end
      else c :: codePoints s'
  end.

(** UTF16EncodeCodePoint *)
Definition codeUnits (cp : N) : jsstring :=
  if (cp <? 0x10000)%N then [cp]
  else [0xD800 + (cp - 0x10000) / 0x400;
        0xDC00 + (cp - 0x10000) mod 0x400]%N.

(** Is [c] in one of the ranges [(first, last)] of [table]? *)
Definition inRanges (table : list (N * N)) (c : N) : bool :=
  existsb (fun '(first, last) => N.leb first c && N.leb c last)%N table.

(** The entry [(first, last, step, target)] of a mapping table maps
    [first], [first + step], ... up to [last] to [target],
    [target + step], ...; a code point in no entry maps to itself. *)
Fixpoint mapped (table : list (N * N * N * N)) (c : N) : N :=
  match table with
  | [] => c
  | (first, last, step, target) :: table' =>
      if (N.leb first c && N.leb c last && N.eqb ((c - first) mod step) 0)%N
      then (target + (c - first))%N
      else mapped table' c
  end.

(** The lower-case mappings of UnicodeData.txt: the code points whose
    lower case is one other code point. *)
Definition lowerCaseTable : list (N * N * N * N) :=
  [(0x41, 0x5A, 1, 0x61); (0xC0, 0xD6, 1, 0xE0); (0xD8, 0xDE, 1, 0xF8);
   (0x100, 0x12E, 2, 0x101); (0x132, 0x136, 2, 0x133);
   (0x139, 0x147, 2, 0x13A); (0x14A, 0x176, 2, 0x14B);
   (0x178, 0x178, 1, 0xFF); (0x179, 0x17D, 2, 0x17A);
   (0x181, 0x181, 1, 0x253); (0x182, 0x184, 2, 0x183);
   (0x186, 0x186, 1, 0x254); (0x187, 0x187, 1, 0x188);
   (0x189, 0x18A, 1, 0x256); (0x18B, 0x18B, 1, 0x18C);
   (0x18E, 0x18E, 1, 0x1DD); (0x18F, 0x18F, 1, 0x259);
   (0x190, 0x190, 1, 0x25B); (0x191, 0x191, 1, 0x192);
   (0x193, 0x193, 1, 0x260); (0x194, 0x194, 1, 0x263);
   (0x196, 0x196, 1, 0x269); (0x197, 0x197, 1, 0x268);
   (0x198, 0x198, 1, 0x199); (0x19C, 0x19C, 1, 0x26F);
   (0x19D, 0x19D, 1, 0x272); (0x19F, 0x19F, 1, 0x275);
   (0x1A0, 0x1A4, 2, 0x1A1); (0x1A6, 0x1A6, 1, 0x280);
   (0x1A7, 0x1A7, 1, 0x1A8); (0x1A9, 0x1A9, 1, 0x283);
   (0x1AC, 0x1AC, 1, 0x1AD); (0x1AE, 0x1AE, 1, 0x288);
   (0x1AF, 0x1AF, 1, 0x1B0); (0x1B1, 0x1B2, 1, 0x28A);
   (0x1B3, 0x1B5, 2, 0x1B4); (0x1B7, 0x1B7, 1, 0x292);
   (0x1B8, 0x1B8, 1, 0x1B9); (0x1BC, 0x1BC, 1, 0x1BD);
   (0x1C4, 0x1C4, 1, 0x1C6); (0x1C5, 0x1C5, 1, 0x1C6);
   (0x1C7, 0x1C7, 1, 0x1C9); (0x1C8, 0x1C8, 1, 0x1C9);
   (0x1CA, 0x1CA, 1, 0x1CC); (0x1CB, 0x1DB, 2, 0x1CC);
   (0x1DE, 0x1EE, 2, 0x1DF); (0x1F1, 0x1F1, 1, 0x1F3);
   (0x1F2, 0x1F4, 2, 0x1F3); (0x1F6, 0x1F6, 1, 0x195);
   (0x1F7, 0x1F7, 1, 0x1BF); (0x1F8, 0x21E, 2, 0x1F9);
   (0x220, 0x220, 1, 0x19E); (0x222, 0x232, 2, 0x223);
   (0x23A, 0x23A, 1, 0x2C65); (0x23B, 0x23B, 1, 0x23C);
   (0x23D, 0x23D, 1, 0x19A); (0x23E, 0x23E, 1, 0x2C66);
   (0x241, 0x241, 1, 0x242); (0x243, 0x243, 1, 0x180);
   (0x244, 0x244, 1, 0x289); (0x245, 0x245, 1, 0x28C);
   (0x246, 0x24E, 2, 0x247); (0x370, 0x372, 2, 0x371);
   (0x376, 0x376, 1, 0x377); (0x37F, 0x37F, 1, 0x3F3);
   (0x386, 0x386, 1, 0x3AC); (0x388, 0x38A, 1, 0x3AD);
   (0x38C, 0x38C, 1, 0x3CC); (0x38E, 0x38F, 1, 0x3CD);
   (0x391, 0x3A1, 1, 0x3B1); (0x3A3, 0x3AB, 1, 0x3C3);
   (0x3CF, 0x3CF, 1, 0x3D7); (0x3D8, 0x3EE, 2, 0x3D9);
   (0x3F4, 0x3F4, 1, 0x3B8); (0x3F7, 0x3F7, 1, 0x3F8);
   (0x3F9, 0x3F9, 1, 0x3F2); (0x3FA, 0x3FA, 1, 0x3FB);
   (0x3FD, 0x3FF, 1, 0x37B); (0x400, 0x40F, 1, 0x450);
   (0x410, 0x42F, 1, 0x430); (0x460, 0x480, 2, 0x461);
   (0x48A, 0x4BE, 2, 0x48B); (0x4C0, 0x4C0, 1, 0x4CF);
   (0x4C1, 0x4CD, 2, 0x4C2); (0x4D0, 0x52E, 2, 0x4D1);
   (0x531, 0x556, 1, 0x561); (0x10A0, 0x10C5, 1, 0x2D00);
   (0x10C7, 0x10C7, 1, 0x2D27); (0x10CD, 0x10CD, 1, 0x2D2D);
   (0x13A0, 0x13EF, 1, 0xAB70); (0x13F0, 0x13F5, 1, 0x13F8);
   (0x1C90, 0x1CBA, 1, 0x10D0); (0x1CBD, 0x1CBF, 1, 0x10FD);
   (0x1E00, 0x1E94, 2, 0x1E01); (0x1E9E, 0x1E9E, 1, 0xDF);
   (0x1EA0, 0x1EFE, 2, 0x1EA1); (0x1F08, 0x1F0F, 1, 0x1F00);
   (0x1F18, 0x1F1D, 1, 0x1F10); (0x1F28, 0x1F2F, 1, 0x1F20);
   (0x1F38, 0x1F3F, 1, 0x1F30); (0x1F48, 0x1F4D, 1, 0x1F40);
   (0x1F59, 0x1F5F, 2, 0x1F51); (0x1F68, 0x1F6F, 1, 0x1F60);
   (0x1F88, 0x1F8F, 1, 0x1F80); (0x1F98, 0x1F9F, 1, 0x1F90);
   (0x1FA8, 0x1FAF, 1, 0x1FA0); (0x1FB8, 0x1FB9, 1, 0x1FB0);
   (0x1FBA, 0x1FBB, 1, 0x1F70); (0x1FBC, 0x1FBC, 1, 0x1FB3);
   (0x1FC8, 0x1FCB, 1, 0x1F72); (0x1FCC, 0x1FCC, 1, 0x1FC3);
   (0x1FD8, 0x1FD9, 1, 0x1FD0); (0x1FDA, 0x1FDB, 1, 0x1F76);
   (0x1FE8, 0x1FE9, 1, 0x1FE0); (0x1FEA, 0x1FEB, 1, 0x1F7A);
   (0x1FEC, 0x1FEC, 1, 0x1FE5); (0x1FF8, 0x1FF9, 1, 0x1F78);
   (0x1FFA, 0x1FFB, 1, 0x1F7C); (0x1FFC, 0x1FFC, 1, 0x1FF3);
   (0x2126, 0x2126, 1, 0x3C9); (0x212A, 0x212A, 1, 0x6B);
   (0x212B, 0x212B, 1, 0xE5); (0x2132, 0x2132, 1, 0x214E);
   (0x2160, 0x216F, 1, 0x2170); (0x2183, 0x2183, 1, 0x2184);
   (0x24B6, 0x24CF, 1, 0x24D0); (0x2C00, 0x2C2F, 1, 0x2C30);
   (0x2C60, 0x2C60, 1, 0x2C61); (0x2C62, 0x2C62, 1, 0x26B);
   (0x2C63, 0x2C63, 1, 0x1D7D); (0x2C64, 0x2C64, 1, 0x27D);
   (0x2C67, 0x2C6B, 2, 0x2C68); (0x2C6D, 0x2C6D, 1, 0x251);
   (0x2C6E, 0x2C6E, 1, 0x271); (0x2C6F, 0x2C6F, 1, 0x250);
   (0x2C70, 0x2C70, 1, 0x252); (0x2C72, 0x2C72, 1, 0x2C73);
   (0x2C75, 0x2C75, 1, 0x2C76); (0x2C7E, 0x2C7F, 1, 0x23F);
   (0x2C80, 0x2CE2, 2, 0x2C81); (0x2CEB, 0x2CED, 2, 0x2CEC);
   (0x2CF2, 0x2CF2, 1, 0x2CF3); (0xA640, 0xA66C, 2, 0xA641);
   (0xA680, 0xA69A, 2, 0xA681); (0xA722, 0xA72E, 2, 0xA723);
   (0xA732, 0xA76E, 2, 0xA733); (0xA779, 0xA77B, 2, 0xA77A);
   (0xA77D, 0xA77D, 1, 0x1D79); (0xA77E, 0xA786, 2, 0xA77F);
   (0xA78B, 0xA78B, 1, 0xA78C); (0xA78D, 0xA78D, 1, 0x265);
   (0xA790, 0xA792, 2, 0xA791); (0xA796, 0xA7A8, 2, 0xA797);
   (0xA7AA, 0xA7AA, 1, 0x266); (0xA7AB, 0xA7AB, 1, 0x25C);
   (0xA7AC, 0xA7AC, 1, 0x261); (0xA7AD, 0xA7AD, 1, 0x26C);
   (0xA7AE, 0xA7AE, 1, 0x26A); (0xA7B0, 0xA7B0, 1, 0x29E);
   (0xA7B1, 0xA7B1, 1, 0x287); (0xA7B2, 0xA7B2, 1, 0x29D);
   (0xA7B3, 0xA7B3, 1, 0xAB53); (0xA7B4, 0xA7C2, 2, 0xA7B5);
   (0xA7C4, 0xA7C4, 1, 0xA794); (0xA7C5, 0xA7C5, 1, 0x282);
   (0xA7C6, 0xA7C6, 1, 0x1D8E); (0xA7C7, 0xA7C9, 2, 0xA7C8);
   (0xA7D0, 0xA7D0, 1, 0xA7D1); (0xA7D6, 0xA7D8, 2, 0xA7D7);
   (0xA7F5, 0xA7F5, 1, 0xA7F6); (0xFF21, 0xFF3A, 1, 0xFF41);
   (0x10400, 0x10427, 1, 0x10428); (0x104B0, 0x104D3, 1, 0x104D8);
   (0x10570, 0x10594, 2, 0x10597); (0x10571, 0x10579, 2, 0x10598);
   (0x1057D, 0x10589, 2, 0x105A4); (0x1058D, 0x10591, 2, 0x105B4);
   (0x10595, 0x10595, 1, 0x105BC); (0x10C80, 0x10CB2, 1, 0x10CC0);
   (0x118A0, 0x118BF, 1, 0x118C0); (0x16E40, 0x16E5F, 1, 0x16E60);
   (0x1E900, 0x1E921, 1, 0x1E922)]%N.

(** The code points with the property Case_Ignorable. *)
Definition caseIgnorableTable : list (N * N) :=
  [(0x27, 0x27); (0x2E, 0x2E); (0x3A, 0x3A); (0x5E, 0x5E); (0x60, 0x60);
   (0xA8, 0xA8); (0xAD, 0xAD); (0xAF, 0xAF); (0xB4, 0xB4); (0xB7, 0xB8);
   (0x2B0, 0x36F); (0x374, 0x375); (0x37A, 0x37A); (0x384, 0x385);
   (0x387, 0x387); (0x483, 0x489); (0x559, 0x559); (0x55F, 0x55F);
   (0x591, 0x5BD); (0x5BF, 0x5BF); (0x5C1, 0x5C2); (0x5C4, 0x5C5);
   (0x5C7, 0x5C7); (0x5F4, 0x5F4); (0x600, 0x605); (0x610, 0x61A);
   (0x61C, 0x61C); (0x640, 0x640); (0x64B, 0x65F); (0x670, 0x670);
   (0x6D6, 0x6DD); (0x6DF, 0x6E8); (0x6EA, 0x6ED); (0x70F, 0x70F);
   (0x711, 0x711); (0x730, 0x74A); (0x7A6, 0x7B0); (0x7EB, 0x7F5);
   (0x7FA, 0x7FA); (0x7FD, 0x7FD); (0x816, 0x82D); (0x859, 0x85B);
   (0x888, 0x888); (0x890, 0x891); (0x898, 0x89F); (0x8C9, 0x902);
   (0x93A, 0x93A); (0x93C, 0x93C); (0x941, 0x948); (0x94D, 0x94D);
   (0x951, 0x957); (0x962, 0x963); (0x971, 0x971); (0x981, 0x981);
   (0x9BC, 0x9BC); (0x9C1, 0x9C4); (0x9CD, 0x9CD); (0x9E2, 0x9E3);
   (0x9FE, 0x9FE); (0xA01, 0xA02); (0xA3C, 0xA3C); (0xA41, 0xA42);
   (0xA47, 0xA48); (0xA4B, 0xA4D); (0xA51, 0xA51); (0xA70, 0xA71);
   (0xA75, 0xA75); (0xA81, 0xA82); (0xABC, 0xABC); (0xAC1, 0xAC5);
   (0xAC7, 0xAC8); (0xACD, 0xACD); (0xAE2, 0xAE3); (0xAFA, 0xAFF);
   (0xB01, 0xB01); (0xB3C, 0xB3C); (0xB3F, 0xB3F); (0xB41, 0xB44);
   (0xB4D, 0xB4D); (0xB55, 0xB56); (0xB62, 0xB63); (0xB82, 0xB82);
   (0xBC0, 0xBC0); (0xBCD, 0xBCD); (0xC00, 0xC00); (0xC04, 0xC04);
   (0xC3C, 0xC3C); (0xC3E, 0xC40); (0xC46, 0xC48); (0xC4A, 0xC4D);
   (0xC55, 0xC56); (0xC62, 0xC63); (0xC81, 0xC81); (0xCBC, 0xCBC);
   (0xCBF, 0xCBF); (0xCC6, 0xCC6); (0xCCC, 0xCCD); (0xCE2, 0xCE3);
   (0xD00, 0xD01); (0xD3B, 0xD3C); (0xD41, 0xD44); (0xD4D, 0xD4D);
   (0xD62, 0xD63); (0xD81, 0xD81); (0xDCA, 0xDCA); (0xDD2, 0xDD4);
   (0xDD6, 0xDD6); (0xE31, 0xE31); (0xE34, 0xE3A); (0xE46, 0xE4E);
   (0xEB1, 0xEB1); (0xEB4, 0xEBC); (0xEC6, 0xEC6); (0xEC8, 0xECD);
   (0xF18, 0xF19); (0xF35, 0xF35); (0xF37, 0xF37); (0xF39, 0xF39);
   (0xF71, 0xF7E); (0xF80, 0xF84); (0xF86, 0xF87); (0xF8D, 0xF97);
   (0xF99, 0xFBC); (0xFC6, 0xFC6); (0x102D, 0x1030); (0x1032, 0x1037);
   (0x1039, 0x103A); (0x103D, 0x103E); (0x1058, 0x1059); (0x105E, 0x1060);
   (0x1071, 0x1074); (0x1082, 0x1082); (0x1085, 0x1086); (0x108D, 0x108D);
   (0x109D, 0x109D); (0x10FC, 0x10FC); (0x135D, 0x135F); (0x1712, 0x1714);
   (0x1732, 0x1733); (0x1752, 0x1753); (0x1772, 0x1773); (0x17B4, 0x17B5);
   (0x17B7, 0x17BD); (0x17C6, 0x17C6); (0x17C9, 0x17D3); (0x17D7, 0x17D7);
   (0x17DD, 0x17DD); (0x180B, 0x180F); (0x1843, 0x1843); (0x1885, 0x1886);
   (0x18A9, 0x18A9); (0x1920, 0x1922); (0x1927, 0x1928); (0x1932, 0x1932);
   (0x1939, 0x193B); (0x1A17, 0x1A18); (0x1A1B, 0x1A1B); (0x1A56, 0x1A56);
   (0x1A58, 0x1A5E); (0x1A60, 0x1A60); (0x1A62, 0x1A62); (0x1A65, 0x1A6C);
   (0x1A73, 0x1A7C); (0x1A7F, 0x1A7F); (0x1AA7, 0x1AA7); (0x1AB0, 0x1ACE);
   (0x1B00, 0x1B03); (0x1B34, 0x1B34); (0x1B36, 0x1B3A); (0x1B3C, 0x1B3C);
   (0x1B42, 0x1B42); (0x1B6B, 0x1B73); (0x1B80, 0x1B81); (0x1BA2, 0x1BA5);
   (0x1BA8, 0x1BA9); (0x1BAB, 0x1BAD); (0x1BE6, 0x1BE6); (0x1BE8, 0x1BE9);
   (0x1BED, 0x1BED); (0x1BEF, 0x1BF1); (0x1C2C, 0x1C33); (0x1C36, 0x1C37);
   (0x1C78, 0x1C7D); (0x1CD0, 0x1CD2); (0x1CD4, 0x1CE0); (0x1CE2, 0x1CE8);
   (0x1CED, 0x1CED); (0x1CF4, 0x1CF4); (0x1CF8, 0x1CF9); (0x1D2C, 0x1D6A);
   (0x1D78, 0x1D78); (0x1D9B, 0x1DFF); (0x1FBD, 0x1FBD); (0x1FBF, 0x1FC1);
   (0x1FCD, 0x1FCF); (0x1FDD, 0x1FDF); (0x1FED, 0x1FEF); (0x1FFD, 0x1FFE);
   (0x200B, 0x200F); (0x2018, 0x2019); (0x2024, 0x2024); (0x2027, 0x2027);
   (0x202A, 0x202E); (0x2060, 0x2064); (0x2066, 0x206F); (0x2071, 0x2071);
   (0x207F, 0x207F); (0x2090, 0x209C); (0x20D0, 0x20F0); (0x2C7C, 0x2C7D);
   (0x2CEF, 0x2CF1); (0x2D6F, 0x2D6F); (0x2D7F, 0x2D7F); (0x2DE0, 0x2DFF);
   (0x2E2F, 0x2E2F); (0x3005, 0x3005); (0x302A, 0x302D); (0x3031, 0x3035);
   (0x303B, 0x303B); (0x3099, 0x309E); (0x30FC, 0x30FE); (0xA015, 0xA015);
   (0xA4F8, 0xA4FD); (0xA60C, 0xA60C); (0xA66F, 0xA672); (0xA674, 0xA67D);
   (0xA67F, 0xA67F); (0xA69C, 0xA69F); (0xA6F0, 0xA6F1); (0xA700, 0xA721);
   (0xA770, 0xA770); (0xA788, 0xA78A); (0xA7F2, 0xA7F4); (0xA7F8, 0xA7F9);
   (0xA802, 0xA802); (0xA806, 0xA806); (0xA80B, 0xA80B); (0xA825, 0xA826);
   (0xA82C, 0xA82C); (0xA8C4, 0xA8C5); (0xA8E0, 0xA8F1); (0xA8FF, 0xA8FF);
   (0xA926, 0xA92D); (0xA947, 0xA951); (0xA980, 0xA982); (0xA9B3, 0xA9B3);
   (0xA9B6, 0xA9B9); (0xA9BC, 0xA9BD); (0xA9CF, 0xA9CF); (0xA9E5, 0xA9E6);
   (0xAA29, 0xAA2E); (0xAA31, 0xAA32); (0xAA35, 0xAA36); (0xAA43, 0xAA43);
   (0xAA4C, 0xAA4C); (0xAA70, 0xAA70); (0xAA7C, 0xAA7C); (0xAAB0, 0xAAB0);
   (0xAAB2, 0xAAB4); (0xAAB7, 0xAAB8); (0xAABE, 0xAABF); (0xAAC1, 0xAAC1);
   (0xAADD, 0xAADD); (0xAAEC, 0xAAED); (0xAAF3, 0xAAF4); (0xAAF6, 0xAAF6);
   (0xAB5B, 0xAB5F); (0xAB69, 0xAB6B); (0xABE5, 0xABE5); (0xABE8, 0xABE8);
   (0xABED, 0xABED); (0xFB1E, 0xFB1E); (0xFBB2, 0xFBC2); (0xFE00, 0xFE0F);
   (0xFE13, 0xFE13); (0xFE20, 0xFE2F); (0xFE52, 0xFE52); (0xFE55, 0xFE55);
   (0xFEFF, 0xFEFF); (0xFF07, 0xFF07); (0xFF0E, 0xFF0E); (0xFF1A, 0xFF1A);
   (0xFF3E, 0xFF3E); (0xFF40, 0xFF40); (0xFF70, 0xFF70); (0xFF9E, 0xFF9F);
   (0xFFE3, 0xFFE3); (0xFFF9, 0xFFFB); (0x101FD, 0x101FD); (0x102E0, 0x102E0);
   (0x10376, 0x1037A); (0x10780, 0x10785); (0x10787, 0x107B0);
   (0x107B2, 0x107BA); (0x10A01, 0x10A03); (0x10A05, 0x10A06);
   (0x10A0C, 0x10A0F); (0x10A38, 0x10A3A); (0x10A3F, 0x10A3F);
   (0x10AE5, 0x10AE6); (0x10D24, 0x10D27); (0x10EAB, 0x10EAC);
   (0x10F46, 0x10F50); (0x10F82, 0x10F85); (0x11001, 0x11001);
   (0x11038, 0x11046); (0x11070, 0x11070); (0x11073, 0x11074);
   (0x1107F, 0x11081); (0x110B3, 0x110B6); (0x110B9, 0x110BA);
   (0x110BD, 0x110BD); (0x110C2, 0x110C2); (0x110CD, 0x110CD);
   (0x11100, 0x11102); (0x11127, 0x1112B); (0x1112D, 0x11134);
   (0x11173, 0x11173); (0x11180, 0x11181); (0x111B6, 0x111BE);
   (0x111C9, 0x111CC); (0x111CF, 0x111CF); (0x1122F, 0x11231);
   (0x11234, 0x11234); (0x11236, 0x11237); (0x1123E, 0x1123E);
   (0x112DF, 0x112DF); (0x112E3, 0x112EA); (0x11300, 0x11301);
   (0x1133B, 0x1133C); (0x11340, 0x11340); (0x11366, 0x1136C);
   (0x11370, 0x11374); (0x11438, 0x1143F); (0x11442, 0x11444);
   (0x11446, 0x11446); (0x1145E, 0x1145E); (0x114B3, 0x114B8);
   (0x114BA, 0x114BA); (0x114BF, 0x114C0); (0x114C2, 0x114C3);
   (0x115B2, 0x115B5); (0x115BC, 0x115BD); (0x115BF, 0x115C0);
   (0x115DC, 0x115DD); (0x11633, 0x1163A); (0x1163D, 0x1163D);
   (0x1163F, 0x11640); (0x116AB, 0x116AB); (0x116AD, 0x116AD);
   (0x116B0, 0x116B5); (0x116B7, 0x116B7); (0x1171D, 0x1171F);
   (0x11722, 0x11725); (0x11727, 0x1172B); (0x1182F, 0x11837);
   (0x11839, 0x1183A); (0x1193B, 0x1193C); (0x1193E, 0x1193E);
   (0x11943, 0x11943); (0x119D4, 0x119D7); (0x119DA, 0x119DB);
   (0x119E0, 0x119E0); (0x11A01, 0x11A0A); (0x11A33, 0x11A38);
   (0x11A3B, 0x11A3E); (0x11A47, 0x11A47); (0x11A51, 0x11A56);
   (0x11A59, 0x11A5B); (0x11A8A, 0x11A96); (0x11A98, 0x11A99);
   (0x11C30, 0x11C36); (0x11C38, 0x11C3D); (0x11C3F, 0x11C3F);
   (0x11C92, 0x11CA7); (0x11CAA, 0x11CB0); (0x11CB2, 0x11CB3);
   (0x11CB5, 0x11CB6); (0x11D31, 0x11D36); (0x11D3A, 0x11D3A);
   (0x11D3C, 0x11D3D); (0x11D3F, 0x11D45); (0x11D47, 0x11D47);
   (0x11D90, 0x11D91); (0x11D95, 0x11D95); (0x11D97, 0x11D97);
   (0x11EF3, 0x11EF4); (0x13430, 0x13438); (0x16AF0, 0x16AF4);
   (0x16B30, 0x16B36); (0x16B40, 0x16B43); (0x16F4F, 0x16F4F);
   (0x16F8F, 0x16F9F); (0x16FE0, 0x16FE1); (0x16FE3, 0x16FE4);
   (0x1AFF0, 0x1AFF3); (0x1AFF5, 0x1AFFB); (0x1AFFD, 0x1AFFE);
   (0x1BC9D, 0x1BC9E); (0x1BCA0, 0x1BCA3); (0x1CF00, 0x1CF2D);
   (0x1CF30, 0x1CF46); (0x1D167, 0x1D169); (0x1D173, 0x1D182);
   (0x1D185, 0x1D18B); (0x1D1AA, 0x1D1AD); (0x1D242, 0x1D244);
   (0x1DA00, 0x1DA36); (0x1DA3B, 0x1DA6C); (0x1DA75, 0x1DA75);
   (0x1DA84, 0x1DA84); (0x1DA9B, 0x1DA9F); (0x1DAA1, 0x1DAAF);
   (0x1E000, 0x1E006); (0x1E008, 0x1E018); (0x1E01B, 0x1E021);
   (0x1E023, 0x1E024); (0x1E026, 0x1E02A); (0x1E130, 0x1E13D);
   (0x1E2AE, 0x1E2AE); (0x1E2EC, 0x1E2EF); (0x1E8D0, 0x1E8D6);
   (0x1E944, 0x1E94B); (0x1F3FB, 0x1F3FF); (0xE0001, 0xE0001);
   (0xE0020, 0xE007F); (0xE0100, 0xE01EF)]%N.

(** The code points with the property Cased. *)
Definition casedTable : list (N * N) :=
  [(0x41, 0x5A); (0x61, 0x7A); (0xAA, 0xAA); (0xB5, 0xB5); (0xBA, 0xBA);
   (0xC0, 0xD6); (0xD8, 0xF6); (0xF8, 0x1BA); (0x1BC, 0x1BF); (0x1C4, 0x293);
   (0x295, 0x2B8); (0x2C0, 0x2C1); (0x2E0, 0x2E4); (0x345, 0x345);
   (0x370, 0x373); (0x376, 0x377); (0x37A, 0x37D); (0x37F, 0x37F);
   (0x386, 0x386); (0x388, 0x38A); (0x38C, 0x38C); (0x38E, 0x3A1);
   (0x3A3, 0x3F5); (0x3F7, 0x481); (0x48A, 0x52F); (0x531, 0x556);
   (0x560, 0x588); (0x10A0, 0x10C5); (0x10C7, 0x10C7); (0x10CD, 0x10CD);
   (0x10D0, 0x10FA); (0x10FD, 0x10FF); (0x13A0, 0x13F5); (0x13F8, 0x13FD);
   (0x1C80, 0x1C88); (0x1C90, 0x1CBA); (0x1CBD, 0x1CBF); (0x1D00, 0x1DBF);
   (0x1E00, 0x1F15); (0x1F18, 0x1F1D); (0x1F20, 0x1F45); (0x1F48, 0x1F4D);
   (0x1F50, 0x1F57); (0x1F59, 0x1F59); (0x1F5B, 0x1F5B); (0x1F5D, 0x1F5D);
   (0x1F5F, 0x1F7D); (0x1F80, 0x1FB4); (0x1FB6, 0x1FBC); (0x1FBE, 0x1FBE);
   (0x1FC2, 0x1FC4); (0x1FC6, 0x1FCC); (0x1FD0, 0x1FD3); (0x1FD6, 0x1FDB);
   (0x1FE0, 0x1FEC); (0x1FF2, 0x1FF4); (0x1FF6, 0x1FFC); (0x2071, 0x2071);
   (0x207F, 0x207F); (0x2090, 0x209C); (0x2102, 0x2102); (0x2107, 0x2107);
   (0x210A, 0x2113); (0x2115, 0x2115); (0x2119, 0x211D); (0x2124, 0x2124);
   (0x2126, 0x2126); (0x2128, 0x2128); (0x212A, 0x212D); (0x212F, 0x2134);
   (0x2139, 0x2139); (0x213C, 0x213F); (0x2145, 0x2149); (0x214E, 0x214E);
   (0x2160, 0x217F); (0x2183, 0x2184); (0x24B6, 0x24E9); (0x2C00, 0x2CE4);
   (0x2CEB, 0x2CEE); (0x2CF2, 0x2CF3); (0x2D00, 0x2D25); (0x2D27, 0x2D27);
   (0x2D2D, 0x2D2D); (0xA640, 0xA66D); (0xA680, 0xA69D); (0xA722, 0xA787);
   (0xA78B, 0xA78E); (0xA790, 0xA7CA); (0xA7D0, 0xA7D1); (0xA7D3, 0xA7D3);
   (0xA7D5, 0xA7D9); (0xA7F5, 0xA7F6); (0xA7F8, 0xA7FA); (0xAB30, 0xAB5A);
   (0xAB5C, 0xAB68); (0xAB70, 0xABBF); (0xFB00, 0xFB06); (0xFB13, 0xFB17);
   (0xFF21, 0xFF3A); (0xFF41, 0xFF5A); (0x10400, 0x1044F); (0x104B0, 0x104D3);
   (0x104D8, 0x104FB); (0x10570, 0x1057A); (0x1057C, 0x1058A);
   (0x1058C, 0x10592); (0x10594, 0x10595); (0x10597, 0x105A1);
   (0x105A3, 0x105B1); (0x105B3, 0x105B9); (0x105BB, 0x105BC);
   (0x10780, 0x10780); (0x10783, 0x10785); (0x10787, 0x107B0);
   (0x107B2, 0x107BA); (0x10C80, 0x10CB2); (0x10CC0, 0x10CF2);
   (0x118A0, 0x118DF); (0x16E40, 0x16E7F); (0x1D400, 0x1D454);
   (0x1D456, 0x1D49C); (0x1D49E, 0x1D49F); (0x1D4A2, 0x1D4A2);
   (0x1D4A5, 0x1D4A6); (0x1D4A9, 0x1D4AC); (0x1D4AE, 0x1D4B9);
   (0x1D4BB, 0x1D4BB); (0x1D4BD, 0x1D4C3); (0x1D4C5, 0x1D505);
   (0x1D507, 0x1D50A); (0x1D50D, 0x1D514); (0x1D516, 0x1D51C);
   (0x1D51E, 0x1D539); (0x1D53B, 0x1D53E); (0x1D540, 0x1D544);
   (0x1D546, 0x1D546); (0x1D54A, 0x1D550); (0x1D552, 0x1D6A5);
   (0x1D6A8, 0x1D6C0); (0x1D6C2, 0x1D6DA); (0x1D6DC, 0x1D6FA);
   (0x1D6FC, 0x1D714); (0x1D716, 0x1D734); (0x1D736, 0x1D74E);
   (0x1D750, 0x1D76E); (0x1D770, 0x1D788); (0x1D78A, 0x1D7A8);
   (0x1D7AA, 0x1D7C2); (0x1D7C4, 0x1D7CB); (0x1DF00, 0x1DF09);
   (0x1DF0B, 0x1DF1E); (0x1E900, 0x1E943); (0x1F130, 0x1F149);
   (0x1F150, 0x1F169); (0x1F170, 0x1F189)]%N.

Definition caseIgnorable (c : N) : bool := inRanges caseIgnorableTable c.

Definition cased (c : N) : bool := inRanges casedTable c.

(** The lower-case mapping of a code point out of context: one code
    point, but for U+0130, which gives [i] and a combining dot above. *)
Definition lowerCase (c : N) : list N :=
  if N.eqb c 0x130 then [0x69; 0x307]%N else [mapped lowerCaseTable c].

(** Going through [cps], the first code point that is not case-ignorable
    is a cased letter. *)
Fixpoint casedLetterNext (cps : list N) : bool :=
  match cps with
  | [] => false
  | c :: cps' => if caseIgnorable c then casedLetterNext cps' else cased c
  end.

(** The mapping in context.  [before] holds the code points that
    precede, the nearest first.  A capital sigma U+03A3 that ends a word
    (Final_Sigma: a cased letter before it and none after it, the
    case-ignorable code points in between apart) becomes the final sigma
    U+03C2 and not U+03C3. *)
Fixpoint toLowercase (before cps : list N) : list N :=
  match cps with
  | [] => []
  | c :: after =>
      (if N.eqb c 0x3A3 && casedLetterNext before
          && negb (casedLetterNext after)
       then [0x3C2%N] else lowerCase c)
      ++ toLowercase (c :: before) after
  end.

(** [s.toLowerCase()] *)
Definition toLowerCase (s : jsstring) : jsstring :=
  flat_map codeUnits (toLowercase [] (codePoints s)).

End JS.

Import JS.

(** ** Data model *)

(** A note object, with the five properties [saveNote] gives it.  [id] is
    the number [Date.now()] returned; the two timestamps are ISO strings. *)
Record Note := mkNote {
  id : Z;
  title : jsstring;
  content : jsstring;
  createdAt : jsstring;
  updatedAt : jsstring;
}.

#[global] Instance Note_inhabited : Inhabited Note :=
  populate (mkNote 0 [] [] [] []).

(** A reference to a note object. *)
Definition loc := positive.

(** The two values of [viewMode], ['grid'] and ['list']. *)
Inductive ViewMode := GridView | ListView.

(** The refs of the component.  [notes] is the array of note objects,
    [currentNote] the object open in the editor or [None] for [null].
    [alerts] logs the messages passed to [alert], the latest first. *)
Record State := mkState {
  heap : gmap loc Note;
  notes : list loc;
  currentNote : option loc;
  searchQuery : jsstring;
  showEditor : bool;
  editorTitle : jsstring;
  editorContent : jsstring;
  viewMode : ViewMode;
  alerts : list jsstring;
}.

(** The state of a component that was just set up (lines 5-12). *)
Definition setup : State :=
  mkState ∅ [] None [] false [] [] GridView [].

(** The object a reference designates. *)
Definition deref (st : State) (l : loc) : Note := heap st !!! l.

(** The collection as a sequence of notes, in array order. *)
Definition collection (st : State) : list Note := deref st <$> notes st.

(** *** Field assignments *)

Definition set_heap (h : gmap loc Note) (st : State) : State :=
  mkState h (notes st) (currentNote st) (searchQuery st) (showEditor st)
    (editorTitle st) (editorContent st) (viewMode st) (alerts st).

Definition set_notes (ns : list loc) (st : State) : State :=
  mkState (heap st) ns (currentNote st) (searchQuery st) (showEditor st)
    (editorTitle st) (editorContent st) (viewMode st) (alerts st).

Definition set_currentNote (c : option loc) (st : State) : State :=
  mkState (heap st) (notes st) c (searchQuery st) (showEditor st)
    (editorTitle st) (editorContent st) (viewMode st) (alerts st).

Definition set_searchQuery (q : jsstring) (st : State) : State :=
  mkState (heap st) (notes st) (currentNote st) q (showEditor st)
    (editorTitle st) (editorContent st) (viewMode st) (alerts st).

Definition set_showEditor (b : bool) (st : State) : State :=
  mkState (heap st) (notes st) (currentNote st) (searchQuery st) b
    (editorTitle st) (editorContent st) (viewMode st) (alerts st).

Definition set_editorTitle (s : jsstring) (st : State) : State :=
  mkState (heap st) (notes st) (currentNote st) (searchQuery st)
    (showEditor st) s (editorContent st) (viewMode st) (alerts st).

Definition set_editorContent (s : jsstring) (st : State) : State :=
  mkState (heap st) (notes st) (currentNote st) (searchQuery st)
    (showEditor st) (editorTitle st) s (viewMode st) (alerts st).

Definition set_viewMode (v : ViewMode) (st : State) : State :=
  mkState (heap st) (notes st) (currentNote st) (searchQuery st)
    (showEditor st) (editorTitle st) (editorContent st) v (alerts st).

(** [alert(msg)] *)
Definition alert (msg : jsstring) (st : State) : State :=
  mkState (heap st) (notes st) (currentNote st) (searchQuery st)
    (showEditor st) (editorTitle st) (editorContent st) (viewMode st)
    (msg :: alerts st).

(** ** Computed properties (lines 62-71) *)

(** The callback of [filteredNotes]: the lower-cased title or the
    lower-cased content includes the lower-cased query.  The case
    mapping is the argument [toLowerCase]; the component passes
    [JS.toLowerCase]. *)
Definition matchesQuery (toLowerCase : jsstring -> jsstring)
    (query : jsstring) (note : Note) : bool :=
  includes query (toLowerCase (title note))
  || includes query (toLowerCase (content note)).

Definition filteredNotes (toLowerCase : jsstring -> jsstring)
    (st : State) : list loc :=
  if negb (truthy (searchQuery st)) then notes st
  else
    let query := toLowerCase (searchQuery st) in
    List.filter (fun l => matchesQuery toLowerCase query (deref st l))
      (notes st).

Definition notesCount (st : State) : nat := length (notes st).

(** ** Methods (lines 74-128) *)

Definition createNewNote (st : State) : State :=
  set_showEditor true
    (set_currentNote None
       (set_editorContent [] (set_editorTitle [] st))).

(** [editNote(note)]: [note] is the object of the clicked card. *)
Definition editNote (note : loc) (st : State) : State :=
  set_showEditor true
    (set_editorContent (content (deref st note))
       (set_editorTitle (title (deref st note))
          (set_currentNote (Some note) st))).

Definition closeEditor (st : State) : State :=
  set_editorContent []
    (set_editorTitle []
       (set_currentNote None (set_showEditor false st))).

(** The three assignments of the update branch, on the object itself. *)
Definition updateFields (t c u : jsstring) (n : Note) : Note :=
  mkNote (id n) t c (createdAt n) u.

(** [saveNote()].  [t_id] is the reading of [Date.now()] (line 102),
    [t_created] that of [new Date()] on line 105 and [t_updated] that of
    [new Date()] on line 106, or on line 98 when a note is open. *)
Definition saveNote (t_id t_created t_updated : Z) (st : State) : State :=
  if negb (truthy (trim (editorTitle st))) then
    alert (str "Please enter a title") st
  else
    closeEditor
      match currentNote st with
      | Some l =>
          set_heap
            (alter (updateFields (editorTitle st) (editorContent st)
                      (toISOString t_updated)) l (heap st)) st
      | None =>
          let newNote :=
            mkNote t_id (editorTitle st) (editorContent st)
              (toISOString t_created) (toISOString t_updated) in
          let l := fresh (dom (heap st)) in
          set_notes (l :: notes st) (set_heap (<[l := newNote]> (heap st)) st)
      end.

(** [currentNote.value?.id === noteId] *)
Definition currentNoteHasId (noteId : Z) (st : State) : bool :=
  match currentNote st with
  | Some l => Z.eqb (id (deref st l)) noteId
  | None => false
  end.

(** [deleteNote(noteId)].  [confirmed] is what [confirm] returned. *)
Definition deleteNote (confirmed : bool) (noteId : Z) (st : State) : State :=
  if confirmed then
    let st1 :=
      set_notes
        (List.filter (fun l => negb (Z.eqb (id (deref st l)) noteId))
           (notes st)) st in
    if currentNoteHasId noteId st1 then closeEditor st1 else st1
  else st.

(** ** Text formatting (lines 155-182) *)

(** The three characters before the space in the template literal of the
    [bullet] case, as the source file has them: U+201A, U+00C4, U+00A2. *)
Definition bulletMark : jsstring := [8218; 196; 162]%N.

Definition jsstring_eqb (a b : jsstring) : bool := bool_decide (a = b).

(** The [switch] over [format]; it has no default case, so any other
    format leaves [formattedText] empty. *)
Definition formattedText (format selectedText : jsstring) : jsstring :=
  if jsstring_eqb format (str "bold") then
    str "**" ++ selectedText ++ str "**"
  else if jsstring_eqb format (str "italic") then
    str "*" ++ selectedText ++ str "*"
  else if jsstring_eqb format (str "heading") then
    str "# " ++ selectedText
  else if jsstring_eqb format (str "bullet") then
    bulletMark ++ str " " ++ selectedText
  else [].

(** [applyFormat(format)].  [selectionStart] and [selectionEnd] are the
    selection of the textarea the function queries. *)
Definition applyFormat (format : jsstring) (selectionStart selectionEnd : nat)
    (st : State) : State :=
  let selectedText :=
    substring (editorContent st) selectionStart selectionEnd in
  set_editorContent
    (substring (editorContent st) 0 selectionStart
       ++ formattedText format selectedText
       ++ substringFrom (editorContent st) selectionEnd) st.

Definition toggleViewMode (st : State) : State :=
  set_viewMode
    match viewMode st with
    | GridView => ListView
    | ListView => GridView
    end st.

(** ** Loading the collection (lines 15-23) *)

(** *** [JSON.parse]

    The values of the JSON grammar (ECMA-404).  A number is kept as the
    text writes it, [mantissa * 10 ^ exponent]; [asInteger] below gives
    the Number it denotes. *)
#[local] Unset Elimination Schemes.
Inductive JSON :=
| JNull
| JBool (b : bool)
| JNumber (mantissa exponent : Z)
| JString (s : jsstring)
| JArray (elements : list JSON)
| JObject (members : list (jsstring * JSON)).
#[local] Set Elimination Schemes.

Module Parse.

(** JSON whitespace: space, TAB, LF, CR. *)
Fixpoint skipWs (s : jsstring) : jsstring :=
  match s with
  | c :: s' =>
      if (N.eqb c 32 || N.eqb c 9 || N.eqb c 10 || N.eqb c 13)%N
      then skipWs s' else s
  | [] => []
  end.

Definition isDigit (c : N) : bool := (N.leb 48 c && N.leb c 57)%N.

Definition hexValue (c : N) : option N :=
  if isDigit c then Some (c - 48)%N
  else if (N.leb 65 c && N.leb c 70)%N then Some (c - 55)%N
  else if (N.leb 97 c && N.leb c 102)%N then Some (c - 87)%N
  else None.

(** The character a one-letter escape stands for. *)
Definition escape (c : N) : option N :=
  if N.eqb c 34 then Some 34%N          (* quote *)
  else if N.eqb c 92 then Some 92%N     (* backslash *)
  else if N.eqb c 47 then Some 47%N     (* slash *)
  else if N.eqb c 98 then Some 8%N      (* b *)
  else if N.eqb c 102 then Some 12%N    (* f *)
  else if N.eqb c 110 then Some 10%N    (* n *)
  else if N.eqb c 114 then Some 13%N    (* r *)
  else if N.eqb c 116 then Some 9%N     (* t *)
  else None.

(** The characters of a string up to its closing quote, and what follows. *)
Fixpoint chars (s : jsstring) : option (jsstring * jsstring) :=
  match s with
  | [] => None
  | c :: s' =>
      if N.eqb c 34 then Some ([], s')
      else if N.eqb c 92 then
        match s' with
        | e :: s'' =>
            if N.eqb e 117 then
              match s'' with
              | h1 :: h2 :: h3 :: h4 :: s3 =>
                  match hexValue h1, hexValue h2, hexValue h3, hexValue h4 with
                  | Some a, Some b, Some c', Some d =>
                      match chars s3 with
                      | Some (r, rest) =>
                          Some ((a * 4096 + b * 256 + c' * 16 + d)%N :: r, rest)
                      | None => None
                      end
                  | _, _, _, _ => None
                  end
              | _ => None
              end
            else
              match escape e, chars s'' with
              | Some x, Some (r, rest) => Some (x :: r, rest)
              | _, _ => None
              end
        | [] => None
        end
      else if N.ltb c 32 then None
      else
        match chars s' with
        | Some (r, rest) => Some (c :: r, rest)
        | None => None
        end
  end.

(** The leading digits of [s], as the number they write after [acc], with
    their count. *)
Fixpoint digitsOf (acc : Z) (n : nat) (s : jsstring) : Z * nat * jsstring :=
  match s with
  | c :: s' =>
      if isDigit c then digitsOf (acc * 10 + Z.of_N (c - 48)) (S n) s'
      else (acc, n, s)
  | [] => (acc, n, s)
  end.

(** [-? int frac? exp?], where [int] has no leading zero. *)
Definition number (s : jsstring) : option (JSON * jsstring) :=
  let '(neg, s) :=
    match s with
    | c :: s' => if N.eqb c 45 then (true, s') else (false, s)
    | [] => (false, s)
    end in
  let int :=
    match s with
    | c :: s' =>
        if N.eqb c 48 then Some (0, s')
        else if isDigit c then
          let '(v, _, rest) := digitsOf 0 0 s in Some (v, rest)
        else None
    | [] => None
    end in
  match int with
  | None => None
  | Some (i, s) =>
      let frac :=
        match s with
        | c :: s' =>
            if N.eqb c 46 then
              match digitsOf i 0 s' with
              | (_, O, _) => None
              | (v, n, rest) => Some (v, Z.of_nat n, rest)
              end
            else Some (i, 0, s)
        | [] => Some (i, 0, s)
        end in
      match frac with
      | None => None
      | Some (m, scale, s) =>
          let m := if neg then - m else m in
          match s with
          | c :: s' =>
              if (N.eqb c 101 || N.eqb c 69)%N then
                let '(eneg, s') :=
                  match s' with
                  | g :: s'' =>
                      if N.eqb g 45 then (true, s'')
                      else if N.eqb g 43 then (false, s'')
                      else (false, s')
                  | [] => (false, s')
                  end in
                match digitsOf 0 0 s' with
                | (_, O, _) => None
                | (e, _, rest) =>
                    Some (JNumber m ((if eneg then - e else e) - scale), rest)
                end
              else Some (JNumber m (- scale), s)
          | [] => Some (JNumber m (- scale), s)
          end
      end
  end.

(** [s] starts with the literal [w]: what follows it. *)
Definition word (w s : jsstring) : option jsstring :=
  if startsWith w s then Some (drop (length w) s) else None.

(** A value, the elements of an array after its bracket, the members of an
    object after its brace.  Every call uses one unit of [fuel]. *)
Fixpoint value (fuel : nat) (s : jsstring) : option (JSON * jsstring) :=
  match fuel with
  | O => None
  | S fuel =>
      match skipWs s with
      | [] => None
      | c :: s' =>
          if N.eqb c 110 then pair JNull <$> word (str "ull") s'
          else if N.eqb c 116 then pair (JBool true) <$> word (str "rue") s'
          else if N.eqb c 102 then pair (JBool false) <$> word (str "alse") s'
          else if N.eqb c 34 then
            match chars s' with
            | Some (r, rest) => Some (JString r, rest)
            | None => None
            end
          else if N.eqb c 91 then
            match skipWs s' with
            | d :: s'' =>
                if N.eqb d 93 then Some (JArray [], s'')
                else
                  match elements fuel s' with
                  | Some (l, rest) => Some (JArray l, rest)
                  | None => None
                  end
            | [] => None
            end
          else if N.eqb c 123 then
            match skipWs s' with
            | d :: s'' =>
                if N.eqb d 125 then Some (JObject [], s'')
                else
                  match members fuel s' with
                  | Some (l, rest) => Some (JObject l, rest)
                  | None => None
                  end
            | [] => None
            end
          else number (c :: s')
      end
  end
with elements (fuel : nat) (s : jsstring) : option (list JSON * jsstring) :=
  match fuel with
  | O => None
  | S fuel =>
      match value fuel s with
      | Some (v, rest) =>
          match skipWs rest with
          | c :: rest' =>
              if N.eqb c 93 then Some ([v], rest')
              else if N.eqb c 44 then
                match elements fuel rest' with
                | Some (l, rest'') => Some (v :: l, rest'')
                | None => None
                end
              else None
          | [] => None
          end
      | None => None
      end
  end
with members (fuel : nat) (s : jsstring)
    : option (list (jsstring * JSON) * jsstring) :=
  match fuel with
  | O => None
  | S fuel =>
      match skipWs s with
      | q :: s' =>
          if N.eqb q 34 then
            match chars s' with
            | Some (k, rest) =>
                match skipWs rest with
                | c :: rest' =>
                    if N.eqb c 58 then
                      match value fuel rest' with
                      | Some (v, rest'') =>
                          match skipWs rest'' with
                          | d :: rest3 =>
                              if N.eqb d 125 then Some ([(k, v)], rest3)
                              else if N.eqb d 44 then
                                match members fuel rest3 with
                                | Some (l, rest4) => Some ((k, v) :: l, rest4)
                                | None => None
                                end
                              else None
                          | [] => None
                          end
                      | None => None
                      end
                    else None
                | [] => None
                end
            | None => None
            end
          else None
      | [] => None
      end
  end.

End Parse.

(** [JSON.parse(text)]: the value [text] writes, or [None] where
    [JSON.parse] throws a [SyntaxError].  A call never nests deeper than
    twice the length of the text, which the fuel covers. *)
Definition JSON_parse (text : jsstring) : option JSON :=
  match Parse.value (2 * length text + 2) text with
  | Some (v, rest) =>
      match Parse.skipWs rest with
      | [] => Some v
      | _ :: _ => None
      end
  | None => None
  end.

(** *** Parsed values as notes

    [notes.value] receives whatever [JSON.parse] returns.  The methods
    above work on an array of note objects as [saveNote] makes them: a
    parsed value is read as one when it is an array of objects that have
    the five properties [id], [title], [content], [createdAt] and
    [updatedAt], in this order and no other, the [id] an integer and the
    others strings. *)

(** The names of the properties of a parsed object in the order in which
    they were created: a name that is repeated counts once, at its first
    place.  (An object lists the names that are array indices before the
    others; no property of a note has such a name.) *)
Fixpoint ownKeys (seen : list jsstring) (ms : list (jsstring * JSON))
    : list jsstring :=
  match ms with
  | [] => []
  | (k, _) :: ms' =>
      if bool_decide (k ∈ seen) then ownKeys seen ms'
      else k :: ownKeys (k :: seen) ms'
  end.

(** The properties of the object literal of [saveNote] (lines 101-107). *)
Definition noteKeys : list jsstring :=
  [str "id"; str "title"; str "content"; str "createdAt"; str "updatedAt"].

(** The property [k] of a parsed object: the last member of that name. *)
Fixpoint property (k : jsstring) (ms : list (jsstring * JSON)) : option JSON :=
  match ms with
  | [] => None
  | (k', v) :: ms' =>
      match property k ms' with
      | Some v' => Some v'
      | None => if bool_decide (k = k') then Some v else None
      end
  end.

(** The Number a JSON number denotes, when it is an integer: the
    binary64 value nearest to [m * 10 ^ e].  Both zeros are [0]. *)
Definition asInteger (v : JSON) : option Z :=
  match v with
  | JNumber m e =>
      if m =? 0 then Some 0
      else if m <? 0 then Z.opp <$> integerValue (- m) e
      else integerValue m e
  | _ => None
  end.

Definition asString (v : JSON) : option jsstring :=
  match v with
  | JString s => Some s
  | _ => None
  end.

Definition asNote (v : JSON) : option Note :=
  match v with
  | JObject ms =>
      if bool_decide (ownKeys [] ms = noteKeys) then
        i ← property (str "id") ms ≫= asInteger;
        t ← property (str "title") ms ≫= asString;
        c ← property (str "content") ms ≫= asString;
        ca ← property (str "createdAt") ms ≫= asString;
        ua ← property (str "updatedAt") ms ≫= asString;
        Some (mkNote i t c ca ua)
      else None
  | _ => None
  end.

Definition asNotes (v : JSON) : option (list Note) :=
  match v with
  | JArray l => mapM asNote l
  | _ => None
  end.

(** Fresh objects for the notes [ns], and the array of them. *)
Fixpoint allocNotes (ns : list Note) (h : gmap loc Note)
    : gmap loc Note * list loc :=
  match ns with
  | [] => (h, [])
  | n :: ns' =>
      let l := fresh (dom h) in
      let '(h', ls) := allocNotes ns' (<[l := n]> h) in
      (h', l :: ls)
  end.

Inductive JSError := SyntaxError.

(** How the mount hook ends. *)
Inductive MountResult :=
| Completed (st : State)
    (** it ran to its end, [notes] is an array of note objects *)
| CompletedUntyped (v : JSON)
    (** it ran to its end and [notes.value] is [v], which is no array of
        note objects: no [State] stands for what the component holds *)
| Threw (e : JSError) (st : State)
    (** the exception [e] left the hook before its end, in state [st] *).

(** The hook passed to [onMounted].  [item] is what
    [localStorage.getItem('notes')] returned, [None] for [null].  The hook
    has no [try]: an exception of [JSON.parse] leaves it. *)
Definition onMounted (item : option jsstring) (st : State) : MountResult :=
  match item with
  | Some savedNotes =>
      if truthy savedNotes then
        match JSON_parse savedNotes with
        | Some v =>
            match asNotes v with
            | Some ns =>
                let '(h, ls) := allocNotes ns (heap st) in
                Completed (set_notes ls (set_heap h st))
            | None => CompletedUntyped v
            end
        | None => Threw SyntaxError st
        end
      else Completed st
  | None => Completed st
  end.

(** ** Sequences of user actions *)

(** Typing in the two [v-model] fields of the editor. *)
Definition typeTitle (text : jsstring) (st : State) : State :=
  set_editorTitle text st.

Definition typeContent (text : jsstring) (st : State) : State :=
  set_editorContent text st.

(** One note created through the editor: "New Note", the two fields
    typed, "Save", with the clock readings of that save. *)
Record Creation := mkCreation {
  c_title : jsstring;
  c_content : jsstring;
  c_now : Z;
  c_created : Z;
  c_updated : Z;
}.

Definition create (c : Creation) (st : State) : State :=
  saveNote (c_now c) (c_created c) (c_updated c)
    (typeContent (c_content c) (typeTitle (c_title c) (createNewNote st))).

Definition creates (cs : list Creation) (st : State) : State :=
  fold_left (fun st c => create c st) cs st.

(** ** Properties of states and results *)

(** A title that is empty after trimming: [saveNote] refuses it. *)
Definition blank (s : jsstring) : Prop := trim s = [].

(** Every reference of the array is to an object of the heap. *)
Definition allocated (st : State) : Prop :=
  ∀ l, l ∈ notes st → l ∈ dom (heap st).

(** References are to objects of the heap, no object is twice in the
    array, and the note open in the editor is one of the array. *)
Record wf (st : State) : Prop := mkWf {
  wf_allocated : allocated st;
  wf_NoDup : NoDup (notes st);
  wf_current : ∀ l, currentNote st = Some l → l ∈ notes st;
}.

(** The object [saveNote] builds with no note open (lines 101-107). *)
Definition newNote (t_id t_created t_updated : Z) (st : State) : Note :=
  mkNote t_id (editorTitle st) (editorContent st)
    (toISOString t_created) (toISOString t_updated).

(** The note a creation makes. *)
Definition noteOf (c : Creation) : Note :=
  mkNote (c_now c) (c_title c) (c_content c)
    (toISOString (c_created c)) (toISOString (c_updated c)).

(** The ids of the collection, in array order. *)
Definition ids (st : State) : list Z := id <$> collection st.

(** The editor session is closed and its draft is gone. *)
Definition editorClosed (st : State) : Prop :=
  showEditor st = false ∧ currentNote st = None
  ∧ editorTitle st = [] ∧ editorContent st = [].

(** [q] occurs in [s] as a substring. *)
Definition occursIn (q s : jsstring) : Prop := ∃ a b, s = a ++ q ++ b.

(** [r] is [l] without the elements that fail [P]: the same elements as
    often and in the same order. *)
Inductive selects {A} (P : A → Prop) : list A → list A → Prop :=
| selects_nil : selects P [] []
| selects_keep x l r : P x → selects P l r → selects P (x :: l) (x :: r)
| selects_skip x l r : ¬ P x → selects P l r → selects P (x :: l) r.

(** The test of the callback on one text: the query in lower case occurs
    in the text in lower case. *)
Definition containsIgnoringCase (toLowerCase : jsstring → jsstring)
    (q s : jsstring) : Prop :=
  occursIn (toLowerCase q) (toLowerCase s).

(** The title or the content of [n] passes that test for [q]. *)
Definition mentions (toLowerCase : jsstring → jsstring)
    (q : jsstring) (n : Note) : Prop :=
  containsIgnoringCase toLowerCase q (title n)
  ∨ containsIgnoringCase toLowerCase q (content n).

(** The lower-case letter of an ASCII capital, any other character as it
    is. *)
Definition lowerASCII (c : N) : N :=
  if (N.leb 65 c && N.leb c 90)%N then (c + 32)%N else c.

(** [String.prototype.toLowerCase] on ASCII text. *)
Definition toLowerASCII (s : jsstring) : jsstring := lowerASCII <$> s.

(** Text of the Basic Latin block: every code unit is below 128. *)
Definition basicLatin (s : jsstring) : Prop := Forall (λ c, (c < 128)%N) s.

(** The same letter, case apart: the same character, or a capital of
    [A] to [Z] and its small letter. *)
Definition sameLetter (c d : N) : Prop :=
  c = d
  ∨ ((65 ≤ c ≤ 90)%N ∧ d = (c + 32)%N)
  ∨ ((65 ≤ d ≤ 90)%N ∧ c = (d + 32)%N).

(** [s] contains [q] up to the case of the letters [A] to [Z]: some
    substring of [s] is [q] letter by letter, case apart. *)
Definition containsLetters (q s : jsstring) : Prop :=
  ∃ a q' b, s = a ++ q' ++ b ∧ Forall2 sameLetter q' q.

(** A literal with every apostrophe read as a double quote. *)
Definition quoted (s : string) : jsstring :=
  map (fun c => if N.eqb c 39 then 34%N else c) (str s).
Arguments quoted s%_string.

(** ** What the interface lets a user do *)

(** The events of the template: the "New Note" button, a click on the
    card of [note], typing in the two fields, a toolbar button with the
    selection of the textarea, "Save", the bin of a card with the answer
    to [confirm], "Back", typing in the search field, the view toggle. *)
Inductive Action :=
| NewNote
| EditNote (note : loc)
| TypeTitle (text : jsstring)
| TypeContent (text : jsstring)
| ApplyFormat (format : jsstring) (selectionStart selectionEnd : nat)
| SaveNote (t_id t_created t_updated : Z)
| DeleteNote (confirmed : bool) (noteId : Z)
| CloseEditor
| Search (query : jsstring)
| ToggleViewMode.

Definition perform (a : Action) (st : State) : State :=
  match a with
  | NewNote => createNewNote st
  | EditNote note => editNote note st
  | TypeTitle text => typeTitle text st
  | TypeContent text => typeContent text st
  | ApplyFormat format a b => applyFormat format a b st
  | SaveNote t_id t_created t_updated =>
      saveNote t_id t_created t_updated st
  | DeleteNote confirmed noteId => deleteNote confirmed noteId st
  | CloseEditor => closeEditor st
  | Search query => set_searchQuery query st
  | ToggleViewMode => toggleViewMode st
  end.

(** The cards are those of [filteredNotes]: only one of its notes can be
    clicked. *)
Definition enabled (toLowerCase : jsstring → jsstring)
    (a : Action) (st : State) : Prop :=
  match a with
  | EditNote note => note ∈ filteredNotes toLowerCase st
  | _ => True
  end.

(** [st] is reached from [st0] by actions of the interface, each one
    enabled when it is performed. *)
Inductive reachable (toLowerCase : jsstring → jsstring) (st0 : State)
    : State → Prop :=
| reachable_start : reachable toLowerCase st0 st0
| reachable_perform a st :
    reachable toLowerCase st0 st → enabled toLowerCase a st →
    reachable toLowerCase st0 (perform a st).

(** How a mount hook leaves the component in a state of the model: it
    ran to its end with an array of note objects, or none stored, or an
    exception left it. *)
Definition mounted (st : State) : Prop :=
  ∃ item, onMounted item setup = Completed st
          ∨ ∃ e, onMounted item setup = Threw e st.

(** ** Sample states *)

(** The note of the scenario of the specification, saved in the
    millisecond 1000. *)
Definition groceries : Creation :=
  mkCreation (str "Groceries") (str "milk eggs bread") 1000 1000 1000.

(** Two drafts with a title of three spaces: with no note open, and with
    the note of [groceries] open. *)
Definition blankDraftNew : State :=
  typeTitle (str "   ") (createNewNote (create groceries setup)).

Definition blankDraftEdit : State :=
  typeTitle (str "   ") (editNote 1%positive (create groceries setup)).

(** The draft of a second note, "b", typed in the millisecond 5 in which
    the note "a" was saved. *)
Definition secondDraft : State :=
  typeTitle (str "b")
    (createNewNote (create (mkCreation (str "a") [] 5 5 5) setup)).

(** The note of [groceries] open in the editor, with a new content. *)
Definition groceriesDraft : State :=
  typeContent (str "milk eggs bread cheese")
    (editNote 1%positive (create groceries setup)).

(** The note of [groceries] open in the editor. *)
Definition groceriesOpen : State :=
  editNote 1%positive (create groceries setup).

(** The collection of [groceries] with "EGGS" typed in the search field. *)
Definition eggsSearch : State :=
  set_searchQuery (str "EGGS") (create groceries setup).

(** A note with a Greek title in capitals, omicron delta omicron sigma,
    and the collection of it with a capital sigma typed in the search
    field. *)
Definition odos : Creation :=
  mkCreation [0x39F; 0x394; 0x39F; 0x3A3]%N [] 1000 1000 1000.

Definition sigmaSearch : State :=
  set_searchQuery [0x3A3]%N (create odos setup).

(** A note with the title omicron sigma alpha. *)
Definition osa : Creation :=
  mkCreation [0x39F; 0x3A3; 0x391]%N [] 1000 1000 1000.

(** The draft with the content "the cat sat". *)
Definition catDraft : State :=
  typeContent (str "the cat sat") (createNewNote setup).

(** ** Sequences of actions *)

Definition run (acts : list Action) (st : State) : State :=
  fold_left (fun st a => perform a st) acts st.

(** The actions that assign to [notes] or to a property of a note: "Save"
    and a confirmed deletion. *)
Definition commits (a : Action) : bool :=
  match a with
  | SaveNote _ _ _ => true
  | DeleteNote confirmed _ => confirmed
  | _ => false
  end.

(** Every note of the collection has a title that passes the check of
    [saveNote]. *)
Definition titled (st : State) : Prop :=
  ∀ l, l ∈ notes st → ¬ blank (title (deref st l)).

(** ** Keyboard shortcuts (lines 30-45) *)

(** The properties of a [keydown] event the handler reads. *)
Record KeyboardEvent := mkKeyboardEvent {
  altKey : bool;
  ctrlKey : bool;
  metaKey : bool;
  key : jsstring;
}.

(** [handleKeyboardShortcuts(e)]: three [if] statements in a row, each
    reading [showEditor] as the one before left it.  The clock readings
    are those of the [saveNote] it may call; the boolean tells whether
    [e.preventDefault()] was called. *)
Definition handleKeyboardShortcuts (t_id t_created t_updated : Z)
    (e : KeyboardEvent) (st : State) : State * bool :=
  let '(st1, p1) :=
    if altKey e && jsstring_eqb (key e) (str "n") && negb (showEditor st)
    then (createNewNote st, true)
    else (st, false) in
  let '(st2, p2) :=
    if (ctrlKey e || metaKey e) && jsstring_eqb (key e) (str "s")
       && showEditor st1
    then (saveNote t_id t_created t_updated st1, true)
    else (st1, false) in
  let st3 :=
    if jsstring_eqb (key e) (str "Escape") && showEditor st2
    then closeEditor st2
    else st2 in
  (st3, p1 || p2).

(** ** Word count (lines 150-152) *)

(** [s.split(/\s+/)]: the pieces of [s] between its runs of white space.
    [inRun] tells that the character before was white space, [piece] is
    the current piece, its last character first. *)
Fixpoint splitSpaces (inRun : bool) (piece : jsstring) (s : jsstring)
    : list jsstring :=
  match s with
  | [] => [rev piece]
  | c :: s' =>
      if isWhiteSpace c then
        if inRun then splitSpaces true piece s'
        else rev piece :: splitSpaces true [] s'
      else splitSpaces false (c :: piece) s'
  end.

Definition split_spaces (s : jsstring) : list jsstring :=
  splitSpaces false [] s.

(** [getWordCount(text)] *)
Definition getWordCount (text : jsstring) : nat :=
  length
    (List.filter (fun word => (0 <? length word)%nat)
       (split_spaces (trim text))).

(** The number of places of [s] where a word starts: a character that is
    no white space, at the start or after white space. *)
Fixpoint wordStarts (afterSpace : bool) (s : jsstring) : nat :=
  match s with
  | [] => 0
  | c :: s' =>
      if isWhiteSpace c then wordStarts true s'
      else ((if afterSpace then 1 else 0) + wordStarts false s')%nat
  end.

Definition countWords (s : jsstring) : nat := wordStarts true s.

(** ** The preview of a card (line 265) *)

(** [note.content.substring(0, 150)] followed by ['...'] when the
    content is longer than 150. *)
Definition notePreview (note : Note) : jsstring :=
  substring (content note) 0 150
  ++ (if (150 <? length (content note))%nat then str "..." else []).

(** ** Numbers as text *)

(** The decimal digits of [n], up to [fuel] of them, with no leading
    zero. *)
Fixpoint decimal (fuel : nat) (n : Z) : jsstring :=
  match fuel with
  | O => []
  | S fuel' =>
      (if n <? 10 then [] else decimal fuel' (n / 10))
      ++ [Z.to_N (48 + n mod 10)]
  end.

(** An integer has at most as many decimal digits as binary ones. *)
Definition decimalOf (n : Z) : jsstring :=
  decimal (S (Z.to_nat (Z.log2 n))) n.

(** The Number value of the positive integer [v], an integer itself when
    it is finite. *)
Definition integerNumber (v : Z) : option Z := integerValue v 0.

(** The decimal [s * 10 ^ (n - k)] with the fewest digits [k] of [s]
    whose Number value is [x], the nearest to [x] when two have [k]
    digits, the one with the even [s] when they are as near.  [n] is the
    number of digits of [x]; the search starts at [k]. *)
Fixpoint shortestFrom (fuel : nat) (k n x : Z) : Z :=
  match fuel with
  | O => x
  | S fuel' =>
      let scale := 10 ^ (n - k) in
      let lo := x / scale * scale in
      let hi := lo + scale in
      let okLo := bool_decide (integerNumber lo = Some x) in
      let okHi := bool_decide (integerNumber hi = Some x) in
      if okLo && okHi then
        if (x - lo <? hi - x) || ((x - lo =? hi - x) && Z.even (x / scale))
        then lo
        else hi
      else if okLo then lo
      else if okHi then hi
      else shortestFrom fuel' (k + 1) n x
  end.

(** Seventeen digits tell any two Numbers apart. *)
Definition shortest (x : Z) : Z :=
  shortestFrom 17 1 (Z.of_nat (length (decimalOf x))) x.

(** The digits [ds] without the zeros at their end. *)
Fixpoint significant (ds : jsstring) : jsstring :=
  match ds with
  | [] => []
  | d :: ds' =>
      match significant ds' with
      | [] => if N.eqb d 48 then [] else [d]
      | r => d :: r
      end
  end.

(** [v] written with an exponent: its first digit, the other significant
    digits after a point, and the power of ten. *)
Definition exponential (v : Z) : jsstring :=
  let ds := decimalOf v in
  match significant ds with
  | [] => []
  | [d] => [d]
  | d :: r => d :: 46%N :: r
  end ++ str "e+" ++ decimalOf (Z.of_nat (length ds) - 1).

(** [Number.prototype.toString] on an integer Number that is not
    negative.  Below [2 ^ 53] the digits of the integer are the shortest
    decimal that denotes it.  From there the shortest decimal is found
    and is written out in full below [10 ^ 21], with zeros in the place
    of the digits it leaves out, and with an exponent from [10 ^ 21]. *)
Definition unsignedToString (x : Z) : jsstring :=
  if x <? 2 ^ 53 then decimalOf x
  else
    let v := shortest x in
    if v <? 10 ^ 21 then decimalOf v else exponential v.

(** [Number.prototype.toString] on an integer Number. *)
Definition numberToString (z : Z) : jsstring :=
  if z <? 0 then 45%N :: unsignedToString (- z) else unsignedToString z.

(** The integers a JavaScript number holds exactly. *)
Definition safeInteger (z : Z) : Prop := - 2 ^ 53 < z < 2 ^ 53.

(** ** Relative dates (lines 130-148) *)

(** What [formatDate] asks of [Date]: the time value of
    [new Date(dateString)], [None] for an invalid date; the year of a
    time value in the local time zone; and
    [toLocaleDateString('en-US', ...)] with a short month, a numeric day
    and, when asked, the year. *)
Record DateEnv := mkDateEnv {
  Date_parse : jsstring → option Z;
  getFullYear : Z → Z;
  toLocaleDateString : Z → bool → jsstring;
}.

(** [formatDate(dateString)], with the clock at [now].  On an invalid
    date every comparison is false and [toLocaleDateString] gives
    "Invalid Date". *)
Definition formatDate (env : DateEnv) (now : Z) (dateString : jsstring)
    : jsstring :=
  match Date_parse env dateString with
  | None => str "Invalid Date"
  | Some date =>
      let diffMs := now - date in
      let diffMins := diffMs / 60000 in
      let diffHours := diffMs / 3600000 in
      let diffDays := diffMs / 86400000 in
      if diffMins <? 1 then str "Just now"
      else if diffMins <? 60 then numberToString diffMins ++ str "m ago"
      else if diffHours <? 24 then numberToString diffHours ++ str "h ago"
      else if diffDays <? 7 then numberToString diffDays ++ str "d ago"
      else
        toLocaleDateString env date
          (negb (getFullYear env date =? getFullYear env now))
  end.

(** ** Writing the collection back (lines 47-59) *)

Module Stringify.

(** A hexadecimal digit, in lower case. *)
Definition hexDigit (d : N) : N := (if d <? 10 then 48 + d else 87 + d)%N.

(** The escape [\uXXXX] of a code unit. *)
Definition unicodeEscape (c : N) : jsstring :=
  [92; 117; hexDigit (c / 4096 mod 16); hexDigit (c / 256 mod 16);
   hexDigit (c / 16 mod 16); hexDigit (c mod 16)]%N.

Definition isLeadSurrogate (c : N) : bool :=
  (N.leb 55296 c && N.leb c 56319)%N.

Definition isTrailSurrogate (c : N) : bool :=
  (N.leb 56320 c && N.leb c 57343)%N.

(** A code unit that is not the first of a surrogate pair: the short
    escapes, [\uXXXX] for the other control characters and for a
    surrogate on its own, the character itself otherwise. *)
Definition quoteChar (c : N) : jsstring :=
  if N.eqb c 8 then [92; 98]%N
  else if N.eqb c 9 then [92; 116]%N
  else if N.eqb c 10 then [92; 110]%N
  else if N.eqb c 12 then [92; 102]%N
  else if N.eqb c 13 then [92; 114]%N
  else if N.eqb c 34 then [92; 34]%N
  else if N.eqb c 92 then [92; 92]%N
  else if (N.ltb c 32 || isLeadSurrogate c || isTrailSurrogate c)%bool
  then unicodeEscape c
  else [c].

(** The characters of a quoted string, between its quotes.  A lead
    surrogate with its trail surrogate is one code point and is kept. *)
Fixpoint quoteChars (s : jsstring) : jsstring :=
  match s with
  | [] => []
  | c :: s' =>
      if isLeadSurrogate c then
        match s' with
        | d :: s'' =>
            if isTrailSurrogate d then c :: d :: quoteChars s''
            else unicodeEscape c ++ quoteChars s'
        | [] => unicodeEscape c
        end
      else quoteChar c ++ quoteChars s'
  end.

(** QuoteJSONString *)
Definition quote (s : jsstring) : jsstring :=
  34%N :: quoteChars s ++ [34%N].

(** A note object, with no white space.  Every note object of a
    [State] has the five properties in this order and no other:
    [saveNote] creates it so and later assigns to properties it has, the
    mount hook's value is an array of note objects only when its objects
    have this shape. *)
Definition note (n : Note) : jsstring :=
  str "{" ++ quote (str "id") ++ str ":" ++ numberToString (id n)
  ++ str "," ++ quote (str "title") ++ str ":" ++ quote (title n)
  ++ str "," ++ quote (str "content") ++ str ":" ++ quote (content n)
  ++ str "," ++ quote (str "createdAt") ++ str ":" ++ quote (createdAt n)
  ++ str "," ++ quote (str "updatedAt") ++ str ":" ++ quote (updatedAt n)
  ++ str "}".

(** The elements of an array, with commas between them. *)
Fixpoint elements (ns : list Note) : jsstring :=
  match ns with
  | [] => []
  | [n] => note n
  | n :: ns' => note n ++ str "," ++ elements ns'
  end.

End Stringify.

(** [JSON.stringify(newNotes)] on an array of note objects, their ids
    integer Numbers. *)
Definition JSON_stringify (ns : list Note) : jsstring :=
  str "[" ++ Stringify.elements ns ++ str "]".

(** What the watcher of [notes] works on: the item of [localStorage]
    under ['notes'], the flag [isInitialLoad], the ref
    [showSaveIndicator], and the delays of the timers that are set. *)
Record Persistence := mkPersistence {
  storedNotes : option jsstring;
  isInitialLoad : bool;
  showSaveIndicator : bool;
  timeouts : list Z;
}.

(** With the item [item] in the store, before the watcher has run. *)
Definition initialPersistence (item : option jsstring) : Persistence :=
  mkPersistence item true false [].

(** The callback of [watch(notes, ...)].  [quotaExceeded] tells that
    [localStorage.setItem] throws; the exception leaves the callback at
    its first line, and the boolean of the result reports it. *)
Definition notesWatcher (quotaExceeded : bool) (newNotes : list Note)
    (p : Persistence) : Persistence * bool :=
  if quotaExceeded then (p, true)
  else
    let stored := Some (JSON_stringify newNotes) in
    if negb (isInitialLoad p) then
      (mkPersistence stored false true (1500 :: timeouts p), false)
    else
      (mkPersistence stored false (showSaveIndicator p) (timeouts p), false).

(** The callback of the timer: the indicator goes. *)
Definition hideSaveIndicator (p : Persistence) : Persistence :=
  mkPersistence (storedNotes p) (isInitialLoad p) false (timeouts p).

(** ** Sample values *)

(** Dates are time values written in decimal, the year is counted in
    years of 365 days from 1970, and the date is printed as its time
    value, after a [y] when the year is asked for. *)
Definition sampleDateEnv : DateEnv :=
  mkDateEnv
    (fun s =>
       match Parse.digitsOf 0 0 s with
       | (_, O, _) => None
       | (v, _, []) => Some v
       | _ => None
       end)
    (fun t => 1970 + t / 31536000000)
    (fun t withYear =>
       (if withYear then str "y" else []) ++ numberToString t).

(** The value [JSON.parse] gives for a note that [JSON.stringify] wrote. *)
Definition noteJSON (n : Note) : JSON :=
  JObject
    [(str "id", JNumber (id n) 0);
     (str "title", JString (title n));
     (str "content", JString (content n));
     (str "createdAt", JString (createdAt n));
     (str "updatedAt", JString (updatedAt n))].

(** The watcher run once for each of the collections [nss] in turn, the
    store having room. *)
Definition watchAll (nss : list (list Note)) (p : Persistence)
    : Persistence :=
  fold_left (fun p ns => (notesWatcher false ns p).1) nss p.

(** The number the digits [ds] write after [acc], digit by digit. *)
Definition digitValue (acc : Z) (c : N) : Z := acc * 10 + Z.of_N (c - 48).

(** A note with a quote, a line feed, a backslash, a control character
    and surrogates, alone and in a pair. *)
Definition awkwardNote : Note :=
  mkNote 1700000000000 (quoted "say 'hi'")
    [10; 92; 1; 55357; 56832; 55357; 56832; 56832; 8226]%N
    (str "2023-11-14T22:13:20.000Z") (str "2023-11-14T22:13:20.000Z").

(** A concrete title passes the check of [saveNote]. *)
Ltac not_blank := unfold blank; vm_compute; discriminate.

(** * Properties *)

Example toISOString_epoch :
  toISOString 0 = str "1970-01-01T00:00:00.000Z".
Proof. reflexivity. Qed.

Example toISOString_2023 :
  toISOString 1700000000000 = str "2023-11-14T22:13:20.000Z".
Proof. vm_compute. reflexivity. Qed.

Example toISOString_leap_day :
  toISOString 951782400123 = str "2000-02-29T00:00:00.123Z".
Proof. vm_compute. reflexivity. Qed.

Example toISOString_before_epoch :
  toISOString (-1) = str "1969-12-31T23:59:59.999Z".
Proof. vm_compute. reflexivity. Qed.

Example toISOString_years :
  toISOString 253402300800000 = str "+010000-01-01T00:00:00.000Z"
  ∧ toISOString (-62167219200000) = str "0000-01-01T00:00:00.000Z"
  ∧ toISOString (-62198755200000) = str "-000001-01-01T00:00:00.000Z".
Proof. vm_compute. by repeat split. Qed.

Example toLowerCase_example :
  toLowerCase (str "Hello, World") = str "hello, world"
  ∧ toLowerCase [0xC9; 0x130; 0x212A]%N = [0xE9; 0x69; 0x307; 0x6B]%N
  ∧ toLowerCase [0x39F; 0x394; 0x39F; 0x3A3]%N
    = [0x3BF; 0x3B4; 0x3BF; 0x3C2]%N
  ∧ toLowerCase [0x3A3]%N = [0x3C3]%N
  ∧ toLowerCase [0x39F; 0x3A3; 0x2E; 0x391]%N
    = [0x3BF; 0x3C3; 0x2E; 0x3B1]%N
  ∧ toLowerCase [0x41; 0x27; 0x3A3; 0x20; 0x3A3]%N
    = [0x61; 0x27; 0x3C2; 0x20; 0x3C3]%N
  ∧ toLowerCase [0xD801; 0xDC00; 0xD801; 0x41]%N
    = [0xD801; 0xDC28; 0xD801; 0x61]%N.
Proof. vm_compute. by repeat split. Qed.

Example asInteger_example :
  asInteger (JNumber 1000 0) = Some 1000
  ∧ asInteger (JNumber 1 3) = Some 1000
  ∧ asInteger (JNumber (-25) (-1)) = None
  ∧ asInteger (JNumber 9007199254740993 0) = Some 9007199254740992
  ∧ asInteger (JNumber 10000000000000000000000001 (-25)) = Some 1
  ∧ asInteger (JNumber 1 23) = Some 99999999999999991611392
  ∧ asInteger (JNumber 1 400) = None
  ∧ asInteger (JNumber 1 (-400)) = Some 0.
Proof. vm_compute. by repeat split. Qed.

Example numberToString_example :
  numberToString 1700000000000 = str "1700000000000"
  ∧ numberToString (-7) = str "-7"
  ∧ numberToString 9007199254740992 = str "9007199254740992"
  ∧ numberToString 9223372036854775808 = str "9223372036854776000"
  ∧ numberToString 1000000000000000000000 = str "1e+21"
  ∧ numberToString 99999999999999991611392 = str "1e+23"
  ∧ numberToString (-1180591620717411303424)
    = str "-1.1805916207174113e+21".
Proof. vm_compute. by repeat split. Qed.

Example trim_example :
  trim (str "  a b  ") = str "a b" ∧ trim (str "   ") = []
  ∧ trim [160; 97; 8203; 8232]%N = [97; 8203]%N.
Proof. vm_compute. by repeat split. Qed.

Example JSON_parse_example :
  JSON_parse (quoted " [1, -2.50e3, 'a\u0041', true, null, {'k': []}] ")
  = Some (JArray [JNumber 1 0; JNumber (-250) 1; JString (str "aA");
                  JBool true; JNull; JObject [(str "k", JArray [])]])
  ∧ JSON_parse (str "[1,]") = None
  ∧ JSON_parse (str "01") = None
  ∧ JSON_parse (str "not json") = None.
Proof. vm_compute. by repeat split. Qed.

Example onMounted_example :
  ∃ st,
    onMounted
      (Some (quoted "[{'id':1000,'title':'Groceries','content':'milk',
                      'createdAt':'c','updatedAt':'u'}]")) setup
    = Completed st
    ∧ collection st
      = [mkNote 1000 (str "Groceries") (str "milk") (str "c") (str "u")].
Proof. eexists. vm_compute. by repeat split. Qed.

(** A stored id beyond the safe integers is loaded as the Number nearest
    to it. *)
Example onMounted_rounds_id :
  ∃ st,
    onMounted
      (Some (quoted "[{'id':9007199254740993,'title':'a','content':'',
                      'createdAt':'c','updatedAt':'u'}]")) setup
    = Completed st
    ∧ collection st
      = [mkNote 9007199254740992 (str "a") [] (str "c") (str "u")].
Proof. eexists. vm_compute. by repeat split. Qed.

(** The scenario of the specification: a note is created, found by a
    query in capitals, updated and deleted. *)
Example scenario :
  collection (create groceries setup)
  = [mkNote 1000 (str "Groceries") (str "milk eggs bread")
       (str "1970-01-01T00:00:01.000Z") (str "1970-01-01T00:00:01.000Z")]
  ∧ filteredNotes toLowerCase eggsSearch = notes eggsSearch
  ∧ filteredNotes toLowerCase
      (set_searchQuery (str "ham") (create groceries setup)) = []
  ∧ collection (saveNote 0 0 2000 groceriesDraft)
    = [mkNote 1000 (str "Groceries") (str "milk eggs bread cheese")
         (str "1970-01-01T00:00:01.000Z") (str "1970-01-01T00:00:02.000Z")]
  ∧ collection (deleteNote true 1000 (create groceries setup)) = [].
Proof. vm_compute. by repeat split. Qed.

Example applyFormat_example :
  editorContent (applyFormat (str "italic") 4 7 catDraft)
  = str "the *cat* sat"
  ∧ editorContent (applyFormat (str "heading") 0 3 catDraft)
    = str "# the cat sat"
  ∧ editorContent (applyFormat (str "bold") 4 4 catDraft)
    = str "the ****cat sat"
  ∧ editorContent (applyFormat (str "underline") 4 7 catDraft)
    = str "the  sat".
Proof. vm_compute. by repeat split. Qed.

(** ** Strings *)

Section Strings.

Implicit Types (s q p : jsstring).

Lemma truthy_nil s : truthy s = false ↔ s = [].
Proof. destruct s; simpl; split; congruence. Qed.

Lemma trimStart_nil s :
  trimStart s = [] ↔ Forall (λ c, isWhiteSpace c = true) s.
Proof.
  induction s as [|c s IH]; simpl.
  - split; [constructor | reflexivity].
  - destruct (isWhiteSpace c) eqn:Hc.
    + rewrite IH. split; [by constructor | by inversion 1].
    + split; [discriminate | inversion 1; congruence].
Qed.

Lemma trimStart_head s c t : trimStart s = c :: t → isWhiteSpace c = false.
Proof.
  induction s as [|d s IH]; simpl; [done|].
  destruct (isWhiteSpace d) eqn:Hd; [done|]. congruence.
Qed.

(** A title is blank exactly when all its characters are white space. *)
Lemma blank_iff s : blank s ↔ Forall (λ c, isWhiteSpace c = true) s.
Proof.
  unfold blank, trim, trimEnd. split.
  - intros H. apply (f_equal (@rev N)) in H.
    rewrite rev_involutive in H. simpl in H. apply trimStart_nil in H.
    destruct (trimStart s) as [|c t] eqn:E.
    + by apply trimStart_nil.
    + apply trimStart_head in E. simpl in H.
      apply Forall_app in H as [_ H]. inversion H; congruence.
  - intros H. apply trimStart_nil in H. by rewrite H.
Qed.

Lemma startsWith_spec p s : startsWith p s = true ↔ ∃ b, s = p ++ b.
Proof.
  revert s. induction p as [|a p IH]; intros s; simpl.
  - split; eauto.
  - destruct s as [|c s].
    + split; [discriminate | intros [b Hb]; discriminate].
    + rewrite andb_true_iff, N.eqb_eq, IH. split.
      * intros [-> [b ->]]. eauto.
      * intros [b Hb]. injection Hb as -> ->. eauto.
Qed.

(** [includes] decides the occurrence of a substring. *)
Lemma includes_spec q s : includes q s = true ↔ occursIn q s.
Proof.
  unfold occursIn. induction s as [|c s IH]; simpl.
  - rewrite orb_false_r, startsWith_spec. split.
    + intros [b Hb]. by exists [], b.
    + intros (a & b & H). destruct a; [eauto|discriminate].
  - rewrite orb_true_iff, startsWith_spec, IH. split.
    + intros [[b Hb] | (a & b & Hab)].
      * by exists [], b.
      * exists (c :: a), b. by rewrite Hab.
    + intros (a & b & H). destruct a as [|d a]; simpl in H.
      * left. eauto.
      * right. injection H as -> ->. eauto.
Qed.

Lemma substring_ordered s (a b : nat) :
  (a ≤ b)%nat → (b ≤ length s)%nat →
  substring s a b = take (b - a) (drop a s).
Proof.
  intros Hab Hb. unfold substring.
  by rewrite !Nat.min_l, Nat.max_r by lia.
Qed.

Lemma substring_prefix s (a : nat) : substring s 0 a = take a s.
Proof.
  unfold substring. simpl. rewrite Nat.sub_0_r, drop_0.
  destruct (Nat.le_ge_cases a (length s)).
  - by rewrite Nat.min_l.
  - rewrite Nat.min_r by lia. by rewrite !firstn_all2 by lia.
Qed.

Lemma substringFrom_drop s (b : nat) : substringFrom s b = drop b s.
Proof.
  unfold substringFrom, substring. rewrite Nat.min_id.
  destruct (Nat.le_ge_cases b (length s)).
  - rewrite (Nat.min_l b), Nat.min_l, Nat.max_r by lia.
    apply firstn_all2. rewrite length_drop. lia.
  - rewrite (Nat.min_r b), Nat.min_id, Nat.max_id, Nat.sub_diag by lia.
    by rewrite (drop_ge s b) by lia.
Qed.

End Strings.

(** ** Selections of a list *)

Section Selects.

Context {A : Type}.
Implicit Types (P : A → Prop) (l r : list A).

(** A boolean filter selects the elements its test accepts. *)
Lemma selects_filter P (f : A → bool) l :
  (∀ x, f x = true ↔ P x) → selects P l (List.filter f l).
Proof.
  intros Hf. induction l as [|x l IH]; simpl; [constructor|].
  destruct (f x) eqn:E.
  - apply selects_keep; [by apply Hf | done].
  - apply selects_skip; [|done]. rewrite <- Hf. congruence.
Qed.

(** There is one selection only. *)
Lemma selects_unique P l r r' : selects P l r → selects P l r' → r = r'.
Proof.
  intros H. revert r'. induction H; inversion 1; subst;
    try done; f_equal; auto.
Qed.

Lemma selects_fmap {B} (g : A → B) (Q : B → Prop) l r :
  selects (λ x, Q (g x)) l r → selects Q (g <$> l) (g <$> r).
Proof. induction 1; simpl; by constructor. Qed.

Lemma selects_elem_of P l r x : selects P l r → x ∈ r ↔ x ∈ l ∧ P x.
Proof.
  induction 1 as [|y l r Hy _ IH|y l r Hy _ IH].
  - split; [inversion 1 | intros [H _]; inversion H].
  - rewrite !elem_of_cons, IH. intuition (subst; auto).
  - rewrite elem_of_cons, IH. intuition (subst; done).
Qed.

Lemma selects_sublist P l r : selects P l r → r `sublist_of` l.
Proof. induction 1; by constructor. Qed.

Lemma selects_all P l : (∀ x, x ∈ l → P x) → selects P l l.
Proof.
  induction l as [|x l IH]; intros H; constructor.
  - apply H. left.
  - apply IH. intros y Hy. apply H. by right.
Qed.

End Selects.

(** ** Saving with a blank title (lines 88-92) *)

Lemma saveNote_blank t_id t_created t_updated st :
  blank (editorTitle st) →
  saveNote t_id t_created t_updated st
  = alert (str "Please enter a title") st.
Proof. unfold blank, saveNote. by intros ->. Qed.

Lemma not_blank_truthy s : ¬ blank s → truthy (trim s) = true.
Proof.
  unfold blank. intros H. destruct (truthy _) eqn:E; [done|].
  by apply truthy_nil in E.
Qed.

(** C1. When the title of the draft is empty after trimming, [saveNote]
    raises the alert "Please enter a title" and returns at once, with or
    without a note open in the editor: the heap, the array of notes and
    so the collection are what they were, no note is added and no
    property of a note is assigned; the editor stays as it is. *)
Theorem saveNote_blank_title_rejected t_id t_created t_updated st :
  blank (editorTitle st) →
  let st' := saveNote t_id t_created t_updated st in
  alerts st' = str "Please enter a title" :: alerts st
  ∧ heap st' = heap st
  ∧ notes st' = notes st
  ∧ collection st' = collection st
  ∧ currentNote st' = currentNote st
  ∧ showEditor st' = showEditor st
  ∧ editorTitle st' = editorTitle st
  ∧ editorContent st' = editorContent st.
Proof.
  intros Hblank st'. subst st'.
  rewrite saveNote_blank by assumption. by repeat split.
Qed.

(** A title of three spaces is refused, with no note open and with one. *)
Lemma saveNote_blank_title_rejected_witness :
  (currentNote blankDraftNew = None
   ∧ collection (saveNote 2000 2000 2000 blankDraftNew)
     = collection blankDraftNew)
  ∧ (currentNote blankDraftEdit = Some 1%positive
     ∧ collection (saveNote 2000 2000 2000 blankDraftEdit)
       = collection blankDraftEdit).
Proof.
  split; (split; [reflexivity|]).
  - apply (saveNote_blank_title_rejected 2000 2000 2000 blankDraftNew).
    reflexivity.
  - apply (saveNote_blank_title_rejected 2000 2000 2000 blankDraftEdit).
    reflexivity.
Defined.

(** ** The filtered view (lines 62-69) *)

Section Filter.

(** [String.prototype.toLowerCase], any function on strings here. *)
Variable toLowerCase : jsstring → jsstring.

Lemma matchesQuery_spec q n :
  matchesQuery toLowerCase (toLowerCase q) n = true
  ↔ mentions toLowerCase q n.
Proof.
  unfold matchesQuery, mentions, containsIgnoringCase.
  by rewrite orb_true_iff, !includes_spec.
Qed.

Lemma filteredNotes_empty_query st :
  searchQuery st = [] → filteredNotes toLowerCase st = notes st.
Proof. unfold filteredNotes. by intros ->. Qed.

Lemma filteredNotes_query st :
  searchQuery st ≠ [] →
  selects (λ l, mentions toLowerCase (searchQuery st) (deref st l))
    (notes st) (filteredNotes toLowerCase st).
Proof.
  intros Hq. unfold filteredNotes.
  destruct (searchQuery st) as [|c q] eqn:E; [done|]. simpl.
  apply selects_filter. intros l. apply matchesQuery_spec.
Qed.

(** When lower-casing works character by character, as it does on ASCII
    text, the test reads: some substring of the text is the query up to
    the case of its letters. *)
Lemma containsIgnoringCase_charwise (f : N → N) q s :
  containsIgnoringCase (fmap f) q s
  ↔ ∃ a q' b, s = a ++ q' ++ b ∧ f <$> q' = f <$> q.
Proof.
  unfold containsIgnoringCase, occursIn. split.
  - intros (a & b & H).
    apply fmap_app_inv in H as (a' & r & -> & Hr & ->). symmetry in Hr.
    apply fmap_app_inv in Hr as (q' & b' & Hq & -> & ->).
    by exists a', q', b'.
  - intros (a & q' & b & -> & Hq).
    exists (f <$> a), (f <$> b). by rewrite !fmap_app, Hq.
Qed.

(** With the empty query [filteredNotes] is the array [notes] itself.
    With any other query it is the selection of [notes] by the test of
    the callback, whatever the case mapping is: the notes that pass it,
    each as often as in [notes] and in the order of [notes], and no
    other; read as notes, it is that selection of the collection. *)
Lemma filteredNotes_selects st :
  (searchQuery st = [] →
     filteredNotes toLowerCase st = notes st
     ∧ deref st <$> filteredNotes toLowerCase st = collection st)
  ∧ (searchQuery st ≠ [] →
     selects (λ l, mentions toLowerCase (searchQuery st) (deref st l))
       (notes st) (filteredNotes toLowerCase st)
     ∧ selects (mentions toLowerCase (searchQuery st))
         (collection st) (deref st <$> filteredNotes toLowerCase st)).
Proof.
  split.
  - intros Hq. by rewrite filteredNotes_empty_query.
  - intros Hq. pose proof (filteredNotes_query st Hq) as H.
    split; [exact H|]. by apply selects_fmap.
Qed.

End Filter.

(** ** The case mapping on Basic Latin text *)

Section BasicLatin.

Implicit Types (s q : jsstring) (c d : N).

Lemma below_128 (P : N → bool) :
  forallb P (N.of_nat <$> seq 0 128) = true →
  ∀ c, (c < 128)%N → P c = true.
Proof.
  intros H c Hc. rewrite forallb_forall in H. apply H.
  apply list_elem_of_In, list_elem_of_fmap. exists (N.to_nat c).
  split; [by rewrite N2Nat.id|]. apply elem_of_seq. lia.
Qed.

(** A code unit below 128 is a code point of its own, it is no capital
    sigma, and its lower case is the one of [lowerASCII]. *)
Lemma lowerCase_basicLatin c :
  (c < 128)%N →
  lowerCase c = [lowerASCII c]
  ∧ N.eqb c 0x3A3 = false
  ∧ isLeadingSurrogate c = false
  ∧ codeUnits (lowerASCII c) = [lowerASCII c].
Proof.
  intros Hc.
  pose proof (below_128
    (λ c, jsstring_eqb (lowerCase c) [lowerASCII c]
          && negb (N.eqb c 0x3A3) && negb (isLeadingSurrogate c)
          && jsstring_eqb (codeUnits (lowerASCII c)) [lowerASCII c])
    ltac:(vm_compute; reflexivity) c Hc) as H.
  apply andb_true_iff in H as [H H4]. apply andb_true_iff in H as [H H3].
  apply andb_true_iff in H as [H1 H2].
  apply bool_decide_eq_true in H1, H4. apply negb_true_iff in H2, H3.
  done.
Qed.

Lemma codePoints_basicLatin s : basicLatin s → codePoints s = s.
Proof.
  induction 1 as [|c s Hc _ IH]; [done|]. simpl.
  destruct (lowerCase_basicLatin c Hc) as (_ & _ & -> & _).
  by rewrite IH.
Qed.

Lemma toLowercase_basicLatin before s :
  basicLatin s → toLowercase before s = lowerASCII <$> s.
Proof.
  intros H. revert before. induction H as [|c s Hc _ IH]; intros before;
    [done|].
  simpl. destruct (lowerCase_basicLatin c Hc) as (-> & -> & _ & _).
  simpl. by rewrite IH.
Qed.

(** On Basic Latin text [toLowerCase] works character by character. *)
Lemma toLowerCase_basicLatin s :
  basicLatin s → toLowerCase s = toLowerASCII s.
Proof.
  intros H. unfold toLowerCase, toLowerASCII.
  rewrite codePoints_basicLatin, toLowercase_basicLatin by done.
  induction H as [|c s Hc _ IH]; [done|]. simpl.
  destruct (lowerCase_basicLatin c Hc) as (_ & _ & _ & ->).
  simpl. f_equal. exact IH.
Qed.

Lemma sameLetter_lowerASCII c d :
  sameLetter c d ↔ lowerASCII c = lowerASCII d.
Proof.
  unfold sameLetter, lowerASCII.
  destruct (N.leb_spec 65 c), (N.leb_spec c 90), (N.leb_spec 65 d),
    (N.leb_spec d 90); simpl; lia.
Qed.

Lemma sameLetters_lowerASCII q q' :
  Forall2 sameLetter q' q ↔ lowerASCII <$> q' = lowerASCII <$> q.
Proof.
  revert q. induction q' as [|c q' IH]; intros [|d q].
  - split; [done | constructor].
  - split; [inversion 1 | done].
  - split; [inversion 1 | done].
  - rewrite !fmap_cons, Forall2_cons, sameLetter_lowerASCII, IH.
    split; [by intros [-> ->] | by intros [= -> ->]].
Qed.

(** On Basic Latin text the test of [filteredNotes] is containment up to
    the case of letters. *)
Lemma containsIgnoringCase_basicLatin q s :
  basicLatin q → basicLatin s →
  containsIgnoringCase toLowerCase q s ↔ containsLetters q s.
Proof.
  intros Hq Hs. unfold containsIgnoringCase, containsLetters.
  rewrite !toLowerCase_basicLatin by done.
  rewrite (containsIgnoringCase_charwise lowerASCII q s).
  by setoid_rewrite sameLetters_lowerASCII.
Qed.

Lemma selects_iff {A} (P Q : A → Prop) (l r : list A) :
  (∀ x, x ∈ l → P x ↔ Q x) → selects P l r → selects Q l r.
Proof.
  intros H Hsel. induction Hsel as [|x l r Hx _ IH|x l r Hx _ IH].
  - constructor.
  - apply selects_keep.
    + apply H; [left | done].
    + apply IH. intros y Hy. apply H. by right.
  - apply selects_skip.
    + intros HQ. apply Hx. apply H; [left | done].
    + apply IH. intros y Hy. apply H. by right.
Qed.

Lemma basicLatin_app s1 s2 :
  basicLatin (s1 ++ s2) ↔ basicLatin s1 ∧ basicLatin s2.
Proof. apply Forall_app. Qed.

End BasicLatin.

(** C2. With the empty query [filteredNotes] is the array [notes]
    itself.  With any other query it is the selection of [notes], in
    the order of [notes] and with no other note, by this test: the query
    in lower case occurs in the title in lower case or in the content in
    lower case, where [toLowerCase] maps each string as a whole.  When
    the query and the notes are Basic Latin text, that is the test "the
    title or the content contains the query up to the case of the
    letters A to Z". *)
Theorem filteredNotes_spec st :
  (searchQuery st = [] →
     filteredNotes toLowerCase st = notes st
     ∧ deref st <$> filteredNotes toLowerCase st = collection st)
  ∧ (searchQuery st ≠ [] →
     selects (λ l, mentions toLowerCase (searchQuery st) (deref st l))
       (notes st) (filteredNotes toLowerCase st)
     ∧ selects (mentions toLowerCase (searchQuery st))
         (collection st) (deref st <$> filteredNotes toLowerCase st))
  ∧ (searchQuery st ≠ [] → basicLatin (searchQuery st) →
     Forall (λ n, basicLatin (title n) ∧ basicLatin (content n))
       (collection st) →
     selects
       (λ n, containsLetters (searchQuery st) (title n)
             ∨ containsLetters (searchQuery st) (content n))
       (collection st) (deref st <$> filteredNotes toLowerCase st)).
Proof.
  destruct (filteredNotes_selects toLowerCase st) as [Hempty Hquery].
  split; [done|]. split; [done|].
  intros Hne Hq Hns. destruct (Hquery Hne) as [_ Hsel].
  eapply selects_iff; [|exact Hsel].
  intros n Hn. rewrite Forall_forall in Hns.
  destruct (Hns n Hn) as [Ht Hc]. unfold mentions.
  by rewrite !containsIgnoringCase_basicLatin.
Qed.

(** The query "EGGS" selects the note with "eggs" in its content. *)
Lemma filteredNotes_spec_witness :
  selects
    (λ n, containsLetters (str "EGGS") (title n)
          ∨ containsLetters (str "EGGS") (content n))
    (collection eggsSearch)
    (deref eggsSearch <$> filteredNotes toLowerCase eggsSearch).
Proof.
  destruct (filteredNotes_spec eggsSearch) as (_ & _ & H).
  apply H.
  - discriminate.
  - unfold basicLatin. simpl. repeat constructor.
  - assert (collection eggsSearch = [noteOf groceries]) as ->
      by (vm_compute; reflexivity).
    unfold basicLatin. simpl. repeat constructor.
Defined.

(** A title that contains the query as it is written is not found: the
    capital sigma that ends the title becomes a final sigma, the capital
    sigma that is the whole query does not. *)
Lemma filteredNotes_final_sigma :
  title <$> collection sigmaSearch = [[0x39F; 0x394; 0x39F; 0x3A3]%N]
  ∧ searchQuery sigmaSearch = [0x3A3]%N
  ∧ occursIn [0x3A3]%N [0x39F; 0x394; 0x39F; 0x3A3]%N
  ∧ toLowerCase [0x39F; 0x394; 0x39F; 0x3A3]%N
    = [0x3BF; 0x3B4; 0x3BF; 0x3C2]%N
  ∧ toLowerCase [0x3A3]%N = [0x3C3]%N
  ∧ filteredNotes toLowerCase sigmaSearch = [].
Proof.
  split; [by vm_compute|]. split; [done|].
  split; [by exists [0x39F; 0x394; 0x39F]%N, []|].
  split; [by vm_compute|]. split; by vm_compute.
Qed.

(** ** Saving a new note (lines 100-109) *)

Section Create.

Implicit Types (st : State) (l : loc).

(** The state after a save with a title that passes and no note open. *)
Lemma saveNote_create_eq t_id t_created t_updated st :
  ¬ blank (editorTitle st) → currentNote st = None →
  saveNote t_id t_created t_updated st
  = closeEditor
      (set_notes (fresh (dom (heap st)) :: notes st)
         (set_heap
            (<[fresh (dom (heap st)) := newNote t_id t_created t_updated st]>
               (heap st)) st)).
Proof.
  intros Hb Hc. unfold saveNote.
  by rewrite (not_blank_truthy _ Hb), Hc.
Qed.

Lemma fresh_not_in_notes st :
  allocated st → fresh (dom (heap st)) ∉ notes st.
Proof. intros Ha Hin. apply Ha in Hin. by apply is_fresh in Hin. Qed.

Lemma deref_insert_ne st l l' n :
  l ≠ l' → <[l := n]> (heap st) !!! l' = deref st l'.
Proof. intros. unfold deref. by apply lookup_total_insert_ne. Qed.

Lemma saveNote_create_collection t_id t_created t_updated st :
  ¬ blank (editorTitle st) → currentNote st = None → allocated st →
  collection (saveNote t_id t_created t_updated st)
  = newNote t_id t_created t_updated st :: collection st.
Proof.
  intros Hb Hc Ha. rewrite saveNote_create_eq by done.
  unfold collection, deref at 1. simpl. f_equal.
  - apply lookup_total_insert_eq.
  - apply list_fmap_ext. intros i l Hl. apply deref_insert_ne.
    intros <-. eapply fresh_not_in_notes; [done|].
    by eapply list_elem_of_lookup_2.
Qed.

Lemma saveNote_create_allocated t_id t_created t_updated st :
  ¬ blank (editorTitle st) → currentNote st = None → allocated st →
  allocated (saveNote t_id t_created t_updated st).
Proof.
  intros Hb Hc Ha. rewrite saveNote_create_eq by done.
  intros l. simpl. rewrite dom_insert_L, elem_of_cons.
  intros [->|Hl]; [set_solver | apply Ha in Hl; set_solver].
Qed.

End Create.

(** C3, as the code has it.  A save with a title that passes and no note
    open makes one new object, [newNote]: its [id] is the reading of
    [Date.now()], its [createdAt] and [updatedAt] are the ISO strings of
    the two readings of [new Date()], equal when the readings are.  The
    object is put in front of the array, the notes that were there are
    unchanged and keep their order, and the editor is closed.  The ids of
    the collection stay pairwise distinct exactly when no note had the
    reading of [Date.now()] as its id. *)
Theorem saveNote_creates_note t_id t_created t_updated st :
  ¬ blank (editorTitle st) → currentNote st = None → allocated st →
  let st' := saveNote t_id t_created t_updated st in
  let n := newNote t_id t_created t_updated st in
  (∃ l, (l ∉ notes st) ∧ notes st' = l :: notes st ∧ deref st' l = n)
  ∧ collection st' = n :: collection st
  ∧ (∀ l, l ∈ notes st → deref st' l = deref st l)
  ∧ id n = t_id
  ∧ createdAt n = toISOString t_created
  ∧ updatedAt n = toISOString t_updated
  ∧ (t_created = t_updated → createdAt n = updatedAt n)
  ∧ (NoDup (ids st') ↔ (t_id ∉ ids st) ∧ NoDup (ids st))
  ∧ editorClosed st'.
Proof.
  intros Hb Hc Ha st' n. subst st' n.
  assert (fresh (dom (heap st)) ∉ notes st) as Hfresh
    by by apply fresh_not_in_notes.
  split; [|split; [|split]].
  - exists (fresh (dom (heap st))). split; [done|].
    rewrite saveNote_create_eq by done. split; [done|].
    unfold deref. simpl. apply lookup_total_insert_eq.
  - by apply saveNote_create_collection.
  - intros l Hl. rewrite saveNote_create_eq by done.
    unfold deref at 1. simpl. apply deref_insert_ne. by intros <-.
  - do 3 (split; [done|]). split; [by intros ->|]. split.
    + unfold ids. rewrite saveNote_create_collection by done.
      simpl. by rewrite NoDup_cons.
    + by rewrite saveNote_create_eq.
Qed.

(** C3 as stated fails: saved while [Date.now()] still reads 5 and with
    the clock at 6 for the second [new Date()], the note "b" takes the id
    of the note "a", and its [createdAt] is not its [updatedAt]. *)
Lemma saveNote_create_id_taken :
  ∃ n old,
    currentNote secondDraft = None
    ∧ trim (editorTitle secondDraft) = str "b"
    ∧ collection secondDraft = [old]
    ∧ collection (saveNote 5 5 6 secondDraft) = [n; old]
    ∧ id n = id old
    ∧ createdAt n = str "1970-01-01T00:00:00.005Z"
    ∧ updatedAt n = str "1970-01-01T00:00:00.006Z"
    ∧ createdAt n ≠ updatedAt n.
Proof.
  eexists _, _. vm_compute. repeat split; discriminate.
Qed.

(** A third note, saved in the millisecond 7. *)
Lemma saveNote_creates_note_witness :
  collection (saveNote 7 7 7 secondDraft)
  = newNote 7 7 7 secondDraft :: collection secondDraft.
Proof.
  apply (saveNote_creates_note 7 7 7 secondDraft).
  - not_blank.
  - reflexivity.
  - intros l Hl. vm_compute in Hl.
    apply list_elem_of_singleton in Hl as ->. by vm_compute.
Defined.

(** ** Sequences of creations *)

Section Creates.

Implicit Types (st : State) (c : Creation) (cs : list Creation).

Lemma create_collection c st :
  ¬ blank (c_title c) → allocated st →
  collection (create c st) = noteOf c :: collection st
  ∧ allocated (create c st).
Proof.
  intros Hb Ha. unfold create. split.
  - by rewrite saveNote_create_collection.
  - by apply saveNote_create_allocated.
Qed.

Lemma creates_collection cs st :
  Forall (λ c, ¬ blank (c_title c)) cs → allocated st →
  collection (creates cs st) = reverse (noteOf <$> cs) ++ collection st.
Proof.
  intros Hcs. revert st.
  induction Hcs as [|c cs Hc _ IH]; intros st Ha; [done|].
  destruct (create_collection c st Hc Ha) as [Hcol Ha'].
  unfold creates in *. simpl. rewrite IH, Hcol by done.
  by rewrite reverse_cons, <- app_assoc.
Qed.

Lemma allocated_setup : allocated setup.
Proof. intros l Hl. by apply elem_of_nil in Hl. Qed.

End Creates.

(** C4, as the code has it.  After a sequence of creations with titles
    that pass, from the empty collection, the collection holds one note
    per creation, the latest first, and the ids are the readings of
    [Date.now()]: they are pairwise distinct exactly when these readings
    are. *)
Theorem creates_ids cs :
  Forall (λ c, ¬ blank (c_title c)) cs →
  collection (creates cs setup) = reverse (noteOf <$> cs)
  ∧ ids (creates cs setup) = reverse (c_now <$> cs)
  ∧ (NoDup (ids (creates cs setup)) ↔ NoDup (c_now <$> cs)).
Proof.
  intros Hcs.
  assert (collection (creates cs setup) = reverse (noteOf <$> cs)) as Hcol.
  { rewrite creates_collection by auto using allocated_setup.
    apply app_nil_r. }
  assert (ids (creates cs setup) = reverse (c_now <$> cs)) as Hids.
  { unfold ids. rewrite Hcol, fmap_reverse, <- list_fmap_compose.
    done. }
  split; [done|]. split; [done|].
  by rewrite Hids, reverse_Permutation.
Qed.

(** C4 as stated fails: two creations in the millisecond 5 leave two
    notes with the id 5. *)
Lemma creates_same_millisecond :
  ∃ a b,
    trim (str "a") = str "a" ∧ trim (str "b") = str "b"
    ∧ collection
        (creates [mkCreation (str "a") [] 5 5 5;
                  mkCreation (str "b") [] 5 5 5] setup) = [b; a]
    ∧ title a = str "a" ∧ title b = str "b"
    ∧ id a = id b.
Proof. eexists _, _. vm_compute. by repeat split. Qed.

(** Two creations in the milliseconds 5 and 6. *)
Lemma creates_ids_witness :
  ids (creates [mkCreation (str "a") [] 5 5 5;
                mkCreation (str "b") [] 6 6 6] setup) = [6; 5].
Proof.
  apply (creates_ids [mkCreation (str "a") [] 5 5 5;
                      mkCreation (str "b") [] 6 6 6]).
  repeat constructor; not_blank.
Defined.

(** ** Saving the open note (lines 94-98) *)

Section Update.

Implicit Types (st : State) (l : loc).

(** The state after a save with a title that passes and the note [l]
    open. *)
Lemma saveNote_update_eq t_id t_created t_updated st l :
  ¬ blank (editorTitle st) → currentNote st = Some l →
  saveNote t_id t_created t_updated st
  = closeEditor
      (set_heap
         (alter (updateFields (editorTitle st) (editorContent st)
                   (toISOString t_updated)) l (heap st)) st).
Proof.
  intros Hb Hc. unfold saveNote.
  by rewrite (not_blank_truthy _ Hb), Hc.
Qed.

Lemma deref_alter_eq st l f :
  l ∈ dom (heap st) → alter f l (heap st) !!! l = f (deref st l).
Proof.
  intros [n Hn]%elem_of_dom. unfold deref.
  rewrite lookup_total_alter_eq, Hn. simpl.
  by rewrite (lookup_total_correct _ _ _ Hn).
Qed.

Lemma deref_alter_ne st l l' f :
  l ≠ l' → alter f l (heap st) !!! l' = deref st l'.
Proof. intros. unfold deref. by apply lookup_total_alter_ne. Qed.

End Update.

(** C5. A save with a title that passes and the note [l] of the
    collection open assigns the draft title, the draft content and the
    ISO string of the clock reading to [title], [content] and [updatedAt]
    of that object; its [id] and [createdAt] are what they were, no other
    object changes, and the array is the same references in the same
    order, so the note keeps its position. *)
Theorem saveNote_updates_in_place t_id t_created t_updated st l :
  ¬ blank (editorTitle st) → currentNote st = Some l →
  l ∈ notes st → l ∈ dom (heap st) →
  let st' := saveNote t_id t_created t_updated st in
  let old := deref st l in
  let new := mkNote (id old) (editorTitle st) (editorContent st)
               (createdAt old) (toISOString t_updated) in
  deref st' l = new
  ∧ (∀ l', l' ≠ l → deref st' l' = deref st l')
  ∧ notes st' = notes st
  ∧ collection st'
    = (λ l', if decide (l' = l) then new else deref st l') <$> notes st
  ∧ (∃ i, notes st !! i = Some l ∧ collection st' !! i = Some new).
Proof.
  intros Hb Hc Hin Hdom st' old new.
  assert (deref st' l = new) as Hl.
  { subst st'. rewrite (saveNote_update_eq _ _ _ _ l) by done.
    unfold deref at 1. simpl. by rewrite deref_alter_eq. }
  assert (∀ l', l' ≠ l → deref st' l' = deref st l') as Hother.
  { intros l' Hne. subst st'. rewrite (saveNote_update_eq _ _ _ _ l) by done.
    unfold deref at 1. simpl. by apply deref_alter_ne. }
  assert (notes st' = notes st) as Hnotes.
  { subst st'. by rewrite (saveNote_update_eq _ _ _ _ l). }
  split; [done|]. split; [done|]. split; [done|]. split.
  - unfold collection. rewrite Hnotes. apply list_fmap_ext.
    intros i l' _. case_decide as Hd.
    + by rewrite Hd.
    + by apply Hother.
  - apply list_elem_of_lookup in Hin as [i Hi]. exists i.
    split; [done|]. unfold collection.
    by rewrite Hnotes, list_lookup_fmap, Hi, <- Hl.
Qed.

(** The note of [groceries] saved with a longer content at 2000. *)
Lemma saveNote_updates_in_place_witness :
  deref (saveNote 0 0 2000 groceriesDraft) 1%positive
  = mkNote 1000 (str "Groceries") (str "milk eggs bread cheese")
      (str "1970-01-01T00:00:01.000Z") (str "1970-01-01T00:00:02.000Z").
Proof.
  apply (saveNote_updates_in_place 0 0 2000 groceriesDraft 1%positive).
  - not_blank.
  - reflexivity.
  - vm_compute. left.
  - by vm_compute.
Defined.

(** C10. A save that passes the check stores [editorTitle] itself, with
    the white space around it: as the title of the new note at the head
    of the collection when no note is open, as the title of the open note
    otherwise. *)
Theorem saveNote_title_verbatim t_id t_created t_updated st :
  ¬ blank (editorTitle st) →
  let st' := saveNote t_id t_created t_updated st in
  (currentNote st = None →
     ∃ n rest, collection st' = n :: rest ∧ title n = editorTitle st)
  ∧ (∀ l, currentNote st = Some l → l ∈ dom (heap st) →
     title (deref st' l) = editorTitle st).
Proof.
  intros Hb st'. subst st'. split.
  - intros Hc. rewrite saveNote_create_eq by done.
    eexists _, _. unfold collection. simpl. split; [reflexivity|].
    unfold deref. simpl. by rewrite lookup_total_insert_eq.
  - intros l Hc Hdom. rewrite (saveNote_update_eq _ _ _ _ l) by done.
    unfold deref at 1. simpl. by rewrite deref_alter_eq.
Qed.

(** A title with spaces on both sides is stored with them. *)
Lemma saveNote_title_verbatim_witness :
  ∃ n rest,
    collection (saveNote 9 9 9 (typeTitle (str "  to do ") setup))
    = n :: rest
    ∧ title n = str "  to do ".
Proof.
  apply (saveNote_title_verbatim 9 9 9 (typeTitle (str "  to do ") setup)).
  - not_blank.
  - reflexivity.
Defined.

(** ** Deleting (lines 114-128) *)

Section Delete.

Implicit Types (st : State) (l : loc) (noteId : Z).

(** The test of the [filter] of [deleteNote]. *)
Lemma keeps_spec noteId st l :
  negb (Z.eqb (id (deref st l)) noteId) = true ↔ id (deref st l) ≠ noteId.
Proof. rewrite negb_true_iff, Z.eqb_neq. done. Qed.

Lemma deleteNote_declined noteId st : deleteNote false noteId st = st.
Proof. reflexivity. Qed.

Lemma deleteNote_notes noteId st :
  notes (deleteNote true noteId st)
  = List.filter (λ l, negb (Z.eqb (id (deref st l)) noteId)) (notes st).
Proof. unfold deleteNote. by destruct (currentNoteHasId _ _). Qed.

Lemma deleteNote_heap c noteId st :
  heap (deleteNote c noteId st) = heap st.
Proof.
  unfold deleteNote. destruct c; [|done].
  by destruct (currentNoteHasId _ _).
Qed.

Lemma deleteNote_deref c noteId st l :
  deref (deleteNote c noteId st) l = deref st l.
Proof. unfold deref. by rewrite deleteNote_heap. Qed.

Lemma deleteNote_alerts c noteId st :
  alerts (deleteNote c noteId st) = alerts st.
Proof.
  unfold deleteNote. destruct c; [|done].
  by destruct (currentNoteHasId _ _).
Qed.

(** A confirmed deletion selects the notes with another id. *)
Lemma deleteNote_selects noteId st :
  selects (λ n, id n ≠ noteId)
    (collection st) (collection (deleteNote true noteId st)).
Proof.
  unfold collection. rewrite deleteNote_notes.
  rewrite (list_fmap_ext (deref (deleteNote true noteId st)) (deref st))
    by (intros; apply deleteNote_deref).
  apply selects_fmap, selects_filter. intros l. apply keeps_spec.
Qed.

Lemma filter_all {A} (f : A → bool) (xs : list A) :
  (∀ x, x ∈ xs → f x = true) → List.filter f xs = xs.
Proof.
  induction xs as [|x xs IH]; intros H; simpl; [done|].
  rewrite (H x) by left. f_equal. apply IH. intros y Hy. apply H. by right.
Qed.

(** With no note of that id in the collection and the open note, if any,
    one of the collection, a confirmed deletion changes nothing. *)
Lemma deleteNote_absent noteId st :
  noteId ∉ ids st →
  (∀ l, currentNote st = Some l → l ∈ notes st) →
  deleteNote true noteId st = st.
Proof.
  intros Habs Hcur.
  assert (∀ l, l ∈ notes st → id (deref st l) ≠ noteId) as Hne.
  { intros l Hl Hid. apply Habs. unfold ids, collection.
    rewrite <- list_fmap_compose. apply list_elem_of_fmap. by exists l. }
  unfold deleteNote. rewrite filter_all.
  2:{ intros l Hl. apply keeps_spec. by apply Hne. }
  assert (set_notes (notes st) st = st) as -> by by destruct st.
  unfold currentNoteHasId. destruct (currentNote st) as [l|] eqn:Hc; [|done].
  specialize (Hne l (Hcur l eq_refl)). by apply Z.eqb_neq in Hne as ->.
Qed.

(** A confirmed deletion done twice is the deletion done once. *)
Lemma deleteNote_twice noteId st :
  deleteNote true noteId (deleteNote true noteId st)
  = deleteNote true noteId st.
Proof.
  set (keep st0 := λ l, negb (Z.eqb (id (deref st0 l)) noteId)).
  set (st1 := set_notes (List.filter (keep st) (notes st)) st).
  assert (List.filter (keep st1) (List.filter (keep st) (notes st))
          = List.filter (keep st) (notes st)) as Hff.
  { apply filter_all. intros l Hl.
    apply list_elem_of_In, filter_In in Hl as [_ Hl]. done. }
  unfold deleteNote. fold (keep st) st1.
  destruct (currentNoteHasId noteId st1) eqn:Hh.
  - unfold currentNoteHasId at 1. simpl.
    fold (keep (closeEditor st1)). unfold closeEditor at 3. simpl.
    change (keep (closeEditor st1)) with (keep st1). by rewrite Hff.
  - fold (keep st1). simpl.
    assert (set_notes (List.filter (keep st1) (List.filter (keep st)
              (notes st))) st1 = st1) as -> by by rewrite Hff.
    by rewrite Hh.
Qed.

Lemma deleteNote_closes noteId st l :
  currentNote st = Some l → id (deref st l) = noteId →
  deleteNote true noteId st
  = closeEditor
      (set_notes
         (List.filter (λ l, negb (Z.eqb (id (deref st l)) noteId))
            (notes st)) st).
Proof.
  intros Hc Hid. unfold deleteNote, currentNoteHasId. simpl.
  rewrite Hc. unfold deref in *. simpl. by rewrite Hid, Z.eqb_refl.
Qed.

End Delete.

(** C6, as the code has it.  [deleteNote] first asks [confirm]; declined,
    it changes nothing.  Confirmed, it keeps the notes with another id,
    in their order, and drops every note with the id: no note of the
    collection has the id afterwards, and nothing is alerted.  When no
    note had the id the collection is what it was, and so is the whole
    state when the open note, if any, is one of the collection.  A second
    confirmed deletion of the id changes nothing more. *)
Theorem deleteNote_removes noteId st :
  deleteNote false noteId st = st
  ∧ (let st' := deleteNote true noteId st in
     selects (λ n, id n ≠ noteId) (collection st) (collection st')
     ∧ (noteId ∉ ids st')
     ∧ alerts st' = alerts st
     ∧ (noteId ∉ ids st → collection st' = collection st)
     ∧ (noteId ∉ ids st →
        (∀ l, currentNote st = Some l → l ∈ notes st) → st' = st)
     ∧ deleteNote true noteId st' = st').
Proof.
  split; [reflexivity|]. cbv zeta.
  pose proof (deleteNote_selects noteId st) as Hsel.
  split; [done|]. split; [|split; [|split; [|split]]].
  - unfold ids. intros (n & Hid & Hn)%list_elem_of_fmap.
    apply (selects_elem_of _ _ _ _ Hsel) in Hn as [_ Hn]. done.
  - apply deleteNote_alerts.
  - intros Habs. eapply selects_unique; [exact Hsel|].
    apply selects_all. intros n Hn Hid. apply Habs.
    unfold ids. rewrite <- Hid. by apply list_elem_of_fmap_2.
  - apply deleteNote_absent.
  - apply deleteNote_twice.
Qed.

(** No note of [groceries] has the id 7: deleting it changes nothing. *)
Lemma deleteNote_removes_witness :
  deleteNote true 7 (create groceries setup) = create groceries setup.
Proof.
  pose proof (deleteNote_removes 7 (create groceries setup)) as H.
  cbv zeta in H. destruct H as (_ & _ & _ & _ & _ & Habsent & _).
  apply Habsent.
  - vm_compute. intros H. apply list_elem_of_singleton in H. discriminate.
  - intros l H. discriminate H.
Defined.

(** C6 as stated fails: after a deletion that was not confirmed the note
    with the id is still in the collection. *)
Lemma deleteNote_declined_keeps :
  ids (create groceries setup) = [1000]
  ∧ ids (deleteNote false 1000 (create groceries setup)) = [1000].
Proof. vm_compute. by repeat split. Qed.

(** C7, as the code has it.  With the note [l] open in the editor, a
    confirmed deletion of its id closes the editor: [showEditor] is
    false, [currentNote] is [null] and the two draft fields are empty.  A
    declined deletion leaves the editor as it is. *)
Theorem deleteNote_closes_editor st l :
  currentNote st = Some l →
  editorClosed (deleteNote true (id (deref st l)) st)
  ∧ deleteNote false (id (deref st l)) st = st.
Proof.
  intros Hc. split; [|reflexivity].
  by rewrite (deleteNote_closes _ _ l).
Qed.

(** C7 as stated fails: after a deletion that was not confirmed the
    editor is still open on the note, with its draft. *)
Lemma deleteNote_declined_editor_open :
  currentNote groceriesOpen = Some 1%positive
  ∧ id (deref groceriesOpen 1%positive) = 1000
  ∧ showEditor (deleteNote false 1000 groceriesOpen) = true
  ∧ currentNote (deleteNote false 1000 groceriesOpen) = Some 1%positive
  ∧ editorTitle (deleteNote false 1000 groceriesOpen) = str "Groceries".
Proof. vm_compute. by repeat split. Qed.

(** The open note of [groceries] is deleted: the editor closes. *)
Lemma deleteNote_closes_editor_witness :
  editorClosed (deleteNote true 1000 groceriesOpen).
Proof.
  apply (deleteNote_closes_editor groceriesOpen 1%positive).
  reflexivity.
Defined.

(** ** Loading (lines 15-19) *)

(** C8, as the code has it.  With no item under the key, or the empty
    string, the hook runs to its end and leaves the collection as it was
    set up, empty.  With an item that [JSON.parse] rejects the collection
    is still the empty one, but the hook does not run to its end: the
    [SyntaxError] leaves it, nothing catches it. *)
Theorem onMounted_without_notes :
  collection setup = []
  ∧ onMounted None setup = Completed setup
  ∧ onMounted (Some []) setup = Completed setup
  ∧ (∀ savedNotes,
       savedNotes ≠ [] → JSON_parse savedNotes = None →
       onMounted (Some savedNotes) setup = Threw SyntaxError setup).
Proof.
  repeat split. intros savedNotes Hne Hparse. unfold onMounted.
  rewrite Hparse. by destruct savedNotes.
Qed.

(** The item "not json" makes the hook throw. *)
Lemma onMounted_without_notes_witness :
  onMounted (Some (str "not json")) setup = Threw SyntaxError setup.
Proof.
  apply onMounted_without_notes; [discriminate | by vm_compute].
Defined.

(** C8 as stated fails: with the item [{] the load fails. *)
Lemma onMounted_parse_failure_throws :
  JSON_parse (str "{") = None
  ∧ onMounted (Some (str "{")) setup = Threw SyntaxError setup.
Proof. vm_compute. by repeat split. Qed.

(** ** Formatting (lines 155-182) *)

(** For a selection within the content, [applyFormat('bold')] puts [**]
    before and after the selected characters and leaves the text before
    [selectionStart] and after [selectionEnd] as it is. *)
Lemma applyFormat_bold_wraps (selectionStart selectionEnd : nat) st :
  (selectionStart ≤ selectionEnd)%nat →
  (selectionEnd ≤ length (editorContent st))%nat →
  editorContent (applyFormat (str "bold") selectionStart selectionEnd st)
  = take selectionStart (editorContent st)
    ++ str "**"
    ++ take (selectionEnd - selectionStart)
         (drop selectionStart (editorContent st))
    ++ str "**"
    ++ drop selectionEnd (editorContent st).
Proof.
  intros Hse He. unfold applyFormat. simpl.
  rewrite substring_prefix, substringFrom_drop, substring_ordered by done.
  unfold formattedText. simpl. by rewrite <- !app_assoc.
Qed.

(** C9, as the code has it.  The word "cat" of "the cat sat" is the
    selection from 4 to 7: [applyFormat('bold')] with that selection
    gives "the **cat** sat".  For every selection within the content the
    selected characters are put between [**] and [**], and the text
    before [selectionStart] and after [selectionEnd] is as it was. *)
Theorem applyFormat_bold :
  (∀ st,
     editorContent
       (applyFormat (str "bold") 4 7 (typeContent (str "the cat sat") st))
     = str "the **cat** sat")
  ∧ (∀ (selectionStart selectionEnd : nat) st,
       (selectionStart ≤ selectionEnd)%nat →
       (selectionEnd ≤ length (editorContent st))%nat →
       editorContent
         (applyFormat (str "bold") selectionStart selectionEnd st)
       = take selectionStart (editorContent st)
         ++ str "**"
         ++ take (selectionEnd - selectionStart)
              (drop selectionStart (editorContent st))
         ++ str "**"
         ++ drop selectionEnd (editorContent st)).
Proof.
  split.
  - intros st. rewrite applyFormat_bold_wraps; simpl; [done | lia | lia].
  - apply applyFormat_bold_wraps.
Qed.

(** "eggs" is made bold in the content of [groceries]. *)
Lemma applyFormat_bold_witness :
  editorContent (applyFormat (str "bold") 5 9 groceriesOpen)
  = str "milk **eggs** bread".
Proof.
  apply applyFormat_bold; vm_compute; lia.
Defined.

(** C9 as stated fails: the selection from 2 to 5 is "e c". *)
Lemma applyFormat_bold_2_5 :
  substring (str "the cat sat") 2 5 = str "e c"
  ∧ editorContent (applyFormat (str "bold") 2 5 catDraft)
    = str "th**e c**at sat"
  ∧ editorContent (applyFormat (str "bold") 2 5 catDraft)
    ≠ str "the **cat** sat".
Proof. vm_compute. by repeat split. Qed.

(** ** The states of a mounted component *)

Section Invariant.

Variable toLowerCase : jsstring → jsstring.

Implicit Types (st : State) (l : loc).

Lemma wf_setup : wf setup.
Proof.
  split; simpl.
  - apply allocated_setup.
  - constructor.
  - done.
Qed.

Lemma allocNotes_spec ns (h : gmap loc Note) :
  let '(h', ls) := allocNotes ns h in
  dom h ⊆ dom h' ∧ NoDup ls ∧ ∀ l, l ∈ ls → l ∈ dom h' ∧ l ∉ dom h.
Proof.
  revert h. induction ns as [|n ns IH]; intros h; simpl.
  - split; [done|]. split; [constructor|]. intros l Hl.
    by apply elem_of_nil in Hl.
  - specialize (IH (<[fresh (dom h) := n]> h)).
    destruct (allocNotes ns (<[fresh (dom h) := n]> h)) as [h' ls].
    destruct IH as (Hsub & Hnd & Hls).
    pose proof (is_fresh (dom h)) as Hfresh.
    assert (fresh (dom h) ∈ dom (<[fresh (dom h) := n]> h)) as Hnew.
    { rewrite dom_insert_L. apply elem_of_union_l.
      by apply elem_of_singleton. }
    assert (dom h ⊆ dom (<[fresh (dom h) := n]> h)) as Hold.
    { rewrite dom_insert_L. apply union_subseteq_r. }
    split; [by transitivity (dom (<[fresh (dom h) := n]> h))|]. split.
    + apply NoDup_cons. split; [|done]. intros Hin.
      apply Hls in Hin as [_ Hin]. done.
    + intros l [->|Hl]%elem_of_cons; [by split; [apply Hsub|]|].
      apply Hls in Hl as [Hl1 Hl2]. split; [done|].
      intros Hl. by apply Hl2, Hold.
Qed.

Lemma wf_onMounted item st :
  onMounted item setup = Completed st → wf st.
Proof.
  unfold onMounted. destruct item as [savedNotes|].
  2:{ intros [= <-]. apply wf_setup. }
  destruct (truthy savedNotes).
  2:{ intros [= <-]. apply wf_setup. }
  destruct (JSON_parse savedNotes) as [v|]; [|done].
  destruct (asNotes v) as [ns|]; [|done].
  pose proof (allocNotes_spec ns (heap setup)) as H.
  destruct (allocNotes ns (heap setup)) as [h ls].
  destruct H as (_ & Hnd & Hls). intros [= <-].
  split; unfold allocated; simpl.
  - intros l Hl. by apply Hls.
  - done.
  - done.
Qed.

Lemma filteredNotes_subseteq st l :
  l ∈ filteredNotes toLowerCase st → l ∈ notes st.
Proof.
  unfold filteredNotes. destruct (negb _); [done|].
  intros H. apply list_elem_of_In, filter_In in H as [H _].
  by apply list_elem_of_In.
Qed.

Lemma wf_saveNote t_id t_created t_updated st :
  wf st → wf (saveNote t_id t_created t_updated st).
Proof.
  intros [Ha Hnd Hc]. unfold saveNote.
  destruct (negb _); [by split|].
  destruct (currentNote st) as [l|]; split; unfold allocated; simpl;
    try done.
  - intros l'. rewrite dom_alter_L. apply Ha.
  - intros l'. rewrite dom_insert_L, elem_of_cons.
    intros [->|Hl]; [set_solver | apply Ha in Hl; set_solver].
  - apply NoDup_cons. split; [|done]. by apply fresh_not_in_notes.
Qed.

Lemma wf_deleteNote confirmed noteId st :
  wf st → wf (deleteNote confirmed noteId st).
Proof.
  intros [Ha Hnd Hc]. destruct confirmed; [|by split].
  assert (∀ l,
    l ∈ List.filter (λ l, negb (Z.eqb (id (deref st l)) noteId)) (notes st)
    ↔ l ∈ notes st ∧ id (deref st l) ≠ noteId) as Hin.
  { intros l. by rewrite list_elem_of_In, filter_In, <- list_elem_of_In,
      keeps_spec. }
  unfold deleteNote.
  destruct (currentNoteHasId _ _) eqn:Hh; split; unfold allocated; simpl;
    try done.
  - intros l Hl. apply Ha. by apply Hin.
  - by apply NoDup_ListNoDup, List.NoDup_filter, NoDup_ListNoDup.
  - intros l Hl. apply Ha. by apply Hin.
  - by apply NoDup_ListNoDup, List.NoDup_filter, NoDup_ListNoDup.
  - intros l Hl. apply Hin. split; [by apply Hc|].
    unfold currentNoteHasId in Hh. simpl in Hh. rewrite Hl in Hh.
    by apply Z.eqb_neq.
Qed.

Lemma wf_perform a st :
  wf st → enabled toLowerCase a st → wf (perform a st).
Proof.
  intros Hwf Hen. destruct a; simpl;
    try (destruct Hwf; by split).
  - destruct Hwf as [Ha Hnd Hc]. split; simpl; try done.
    intros l [= <-]. by eapply filteredNotes_subseteq.
  - by apply wf_saveNote.
  - by apply wf_deleteNote.
Qed.

(** The mount hook leaves the component in a well-formed state. *)
Lemma wf_mounted st : mounted st → wf st.
Proof.
  intros (item & [H|(e & H)]).
  - by eapply wf_onMounted.
  - assert (st = setup) as ->; [|apply wf_setup].
    unfold onMounted in H. destruct item as [savedNotes|]; [|done].
    destruct (truthy savedNotes); [|done].
    destruct (JSON_parse savedNotes) as [v|]; [|by injection H].
    destruct (asNotes v); [|done]. by destruct (allocNotes _ _).
Qed.

(** The actions of the interface keep a state well formed. *)
Lemma reachable_wf st0 st :
  wf st0 → reachable toLowerCase st0 st → wf st.
Proof.
  intros Hwf. induction 1 as [|a st _ IH Hen]; [done|].
  by apply wf_perform.
Qed.

(** In a state of a mounted component the hypotheses of the theorems on
    [saveNote] and [deleteNote] hold: the array is allocated, and the
    open note is an object of the array. *)
Lemma reachable_open_note st0 st l :
  mounted st0 → reachable toLowerCase st0 st → currentNote st = Some l →
  l ∈ notes st ∧ l ∈ dom (heap st).
Proof.
  intros Hm Hr Hl.
  destruct (reachable_wf st0 st (wf_mounted st0 Hm) Hr) as [Ha _ Hc].
  split; [by apply Hc|]. by apply Ha, Hc.
Qed.

Lemma reachable_allocated st0 st :
  mounted st0 → reachable toLowerCase st0 st → allocated st.
Proof.
  intros Hm Hr.
  by destruct (reachable_wf st0 st (wf_mounted st0 Hm) Hr) as [Ha _ _].
Qed.

End Invariant.

(** * Further properties *)

(** ** What the actions leave alone *)

Section Frame.

Implicit Types (st : State) (l : loc) (a : Action) (acts : list Action).

Lemma perform_frame a st :
  commits a = false →
  heap (perform a st) = heap st ∧ notes (perform a st) = notes st.
Proof. destruct a as [| | | | | | [] ?| | |]; by intros. Qed.

Lemma run_snoc acts a st : run (acts ++ [a]) st = perform a (run acts st).
Proof. unfold run. by rewrite fold_left_app. Qed.

Lemma dom_perform a st : dom (heap st) ⊆ dom (heap (perform a st)).
Proof.
  destruct a; try done; simpl.
  - unfold saveNote. destruct (negb _); [done|].
    destruct (currentNote st); simpl.
    + by rewrite dom_alter_L.
    + rewrite dom_insert_L. apply union_subseteq_r.
  - by rewrite deleteNote_heap.
Qed.

Lemma allocated_perform a st : allocated st → allocated (perform a st).
Proof.
  intros Ha l Hl. destruct (commits a) eqn:Hc.
  - destruct a; try done; simpl in *.
    + unfold saveNote in *. destruct (negb _); [by apply Ha|].
      destruct (currentNote st); simpl in *.
      * rewrite dom_alter_L. by apply Ha.
      * rewrite dom_insert_L. apply elem_of_cons in Hl as [->|Hl].
        -- apply elem_of_union_l. by apply elem_of_singleton.
        -- apply elem_of_union_r. by apply Ha.
    + rewrite deleteNote_heap. apply Ha. subst confirmed.
      rewrite deleteNote_notes in Hl.
      apply list_elem_of_In, filter_In in Hl as [Hl _].
      by apply list_elem_of_In.
  - destruct (perform_frame a st Hc) as [Hh Hn].
    rewrite Hh. apply Ha. by rewrite <- Hn.
Qed.

Lemma allocated_run acts st : allocated st → allocated (run acts st).
Proof.
  revert st. induction acts as [|a acts IH]; intros st Ha; [done|].
  apply IH. by apply allocated_perform.
Qed.

(** What [saveNote] does to a live object: nothing, or the three
    assignments of the update branch. *)
Lemma saveNote_deref t_id t_created t_updated st l :
  l ∈ dom (heap st) →
  deref (saveNote t_id t_created t_updated st) l = deref st l
  ∨ (¬ blank (editorTitle st)
     ∧ deref (saveNote t_id t_created t_updated st) l
       = updateFields (editorTitle st) (editorContent st)
           (toISOString t_updated) (deref st l)).
Proof.
  intros Hl. destruct (decide (blank (editorTitle st))) as [Hb|Hb].
  { left. by rewrite saveNote_blank. }
  destruct (currentNote st) as [l'|] eqn:Hc.
  - rewrite (saveNote_update_eq _ _ _ _ l') by done.
    unfold deref at 1 3. simpl. destruct (decide (l' = l)) as [->|Hne].
    + right. split; [done|]. by rewrite deref_alter_eq.
    + left. by rewrite deref_alter_ne.
  - left. rewrite saveNote_create_eq by done. unfold deref at 1. simpl.
    apply deref_insert_ne. intros <-. by apply is_fresh in Hl.
Qed.

Lemma perform_identity a st l :
  l ∈ dom (heap st) →
  id (deref (perform a st) l) = id (deref st l)
  ∧ createdAt (deref (perform a st) l) = createdAt (deref st l).
Proof.
  intros Hl. destruct (commits a) eqn:Hc.
  - destruct a; try done; simpl in *.
    + destruct (saveNote_deref t_id t_created t_updated st l Hl)
        as [->|[_ ->]]; done.
    + by rewrite deleteNote_deref.
  - destruct (perform_frame a st Hc) as [Hh _]. unfold deref. by rewrite Hh.
Qed.

End Frame.

(** X1. However the interface is used, a note keeps its [id] and its
    [createdAt]: no sequence of actions changes these two properties of
    an object of the heap. *)
Theorem run_keeps_identity acts st l :
  l ∈ dom (heap st) →
  id (deref (run acts st) l) = id (deref st l)
  ∧ createdAt (deref (run acts st) l) = createdAt (deref st l).
Proof.
  revert st. induction acts as [|a acts IH]; intros st Hl; [done|].
  simpl. destruct (perform_identity a st l Hl) as [<- <-].
  apply IH. by apply dom_perform.
Qed.

(** The note of [groceries] after an edit, a save and a search. *)
Lemma run_keeps_identity_witness :
  id (deref (run [EditNote 1%positive; TypeTitle (str "Food");
                  SaveNote 0 0 5000; Search (str "f")]
               (create groceries setup)) 1%positive) = 1000
  ∧ createdAt (deref (run [EditNote 1%positive; TypeTitle (str "Food");
                           SaveNote 0 0 5000; Search (str "f")]
                        (create groceries setup)) 1%positive)
    = str "1970-01-01T00:00:01.000Z".
Proof.
  apply (run_keeps_identity
           [EditNote 1%positive; TypeTitle (str "Food");
            SaveNote 0 0 5000; Search (str "f")]
           (create groceries setup) 1%positive).
  by vm_compute.
Defined.

(** X2. Only "Save" and a confirmed deletion touch the stored notes:
    after any sequence of other actions (opening and closing the editor,
    typing, formatting, searching, a declined deletion, the view toggle)
    the heap and the array are what they were, and so is the
    collection. *)
Theorem run_without_commit acts st :
  Forall (λ a, commits a = false) acts →
  heap (run acts st) = heap st
  ∧ notes (run acts st) = notes st
  ∧ collection (run acts st) = collection st.
Proof.
  intros Hacts. revert st.
  induction Hacts as [|a acts Ha _ IH]; intros st; [done|].
  simpl. destruct (IH (perform a st)) as (Hh & Hn & Hc).
  destruct (perform_frame a st Ha) as [Hh' Hn'].
  rewrite Hh, Hn, Hc, Hh', Hn'. split; [done|]. split; [done|].
  unfold collection, deref. by rewrite Hh', Hn'.
Qed.

(** A draft is typed over the note of [groceries], made bold and given
    up. *)
Lemma run_without_commit_witness :
  collection
    (run [EditNote 1%positive; TypeContent (str "milk");
          ApplyFormat (str "bold") 0 4; DeleteNote false 1000; CloseEditor]
       (create groceries setup))
  = collection (create groceries setup).
Proof.
  apply (run_without_commit
           [EditNote 1%positive; TypeContent (str "milk");
            ApplyFormat (str "bold") 0 4; DeleteNote false 1000;
            CloseEditor]).
  repeat constructor.
Defined.

(** ** Invariants of the collection *)

Section Titles.

Implicit Types (st : State) (l : loc) (a : Action).

Lemma titled_perform a st :
  allocated st → titled st → titled (perform a st).
Proof.
  intros Ha Ht l Hl. destruct (commits a) eqn:Hc.
  - destruct a; try done; simpl in *.
    + destruct (decide (blank (editorTitle st))) as [Hb|Hb].
      { rewrite saveNote_blank in * by done. by apply Ht. }
      destruct (currentNote st) as [l'|] eqn:Hcur.
      * rewrite (saveNote_update_eq _ _ _ _ l') in * by done.
        simpl in Hl.
        destruct (saveNote_deref t_id t_created t_updated st l (Ha l Hl))
          as [H|[_ H]];
          rewrite (saveNote_update_eq _ _ _ _ l') in H by done;
          rewrite H; [by apply Ht | done].
      * rewrite saveNote_create_eq in * by done. simpl in Hl.
        unfold deref. simpl. apply elem_of_cons in Hl as [->|Hl].
        -- by rewrite lookup_total_insert_eq.
        -- rewrite deref_insert_ne; [by apply Ht|].
           intros <-. by eapply fresh_not_in_notes.
    + subst confirmed. rewrite deleteNote_deref. apply Ht.
      rewrite deleteNote_notes in Hl.
      apply list_elem_of_In, filter_In in Hl as [Hl _].
      by apply list_elem_of_In.
  - destruct (perform_frame a st Hc) as [Hh Hn].
    unfold deref. rewrite Hh. apply Ht. by rewrite <- Hn.
Qed.

End Titles.

(** X3. From a store with no saved notes, whatever the user does, no
    note of the collection ever has a title that is empty after trimming:
    the check of [saveNote] guards both the new note and the update. *)
Theorem run_never_blank_title acts :
  titled (run acts setup).
Proof.
  assert (∀ st, allocated st → titled st → titled (run acts st)) as H.
  { induction acts as [|a acts IH]; intros st Ha Ht; [done|].
    simpl. apply IH; [by apply allocated_perform | by apply titled_perform]. }
  apply H; [apply allocated_setup|].
  intros l Hl. by apply elem_of_nil in Hl.
Qed.

(** X4. After a mount hook that ran to its end with an array of note
    objects or with nothing stored, or that an exception left, every state
    reached by the actions of the interface is well formed: every note
    of the array is a live object, no object is in the array twice, and
    the note open in the editor is one of the array.  (A stored item
    that parses to another value is assigned unchecked; what the
    component holds then is no state of the model.) *)
Theorem reachable_invariant (toLowerCase : jsstring → jsstring) st0 st :
  mounted st0 → reachable toLowerCase st0 st →
  allocated st
  ∧ NoDup (notes st)
  ∧ (∀ l, currentNote st = Some l → l ∈ notes st ∧ l ∈ dom (heap st)).
Proof.
  intros Hm Hr.
  destruct (reachable_wf toLowerCase st0 st (wf_mounted st0 Hm) Hr)
    as [Ha Hnd Hc].
  split; [done|]. split; [done|]. intros l Hl. split; [by apply Hc|].
  by apply Ha, Hc.
Qed.

(** Nothing is stored; the note of [groceries] is created, searched for,
    opened and saved. *)
Lemma reachable_invariant_witness :
  NoDup
    (notes
       (perform (SaveNote 0 0 9)
          (perform (EditNote 1%positive)
             (perform (Search (str "g")) (create groceries setup))))).
Proof.
  apply (reachable_invariant toLowerCase setup).
  { exists None. by left. }
  apply reachable_perform; [|done].
  apply reachable_perform; [|by vm_compute; left].
  apply reachable_perform; [|done].
  change (create groceries setup)
    with (perform (SaveNote 1000 1000 1000)
            (perform (TypeContent (str "milk eggs bread"))
               (perform (TypeTitle (str "Groceries"))
                  (perform NewNote setup)))).
  repeat (apply reachable_perform; [|done]).
  apply reachable_start.
Defined.

(** ** The check of [saveNote] *)

(** X5. [saveNote] raises its alert exactly when every character of the
    draft title is white space (the empty title included); in that case
    and in no other the save is refused. *)
Theorem saveNote_alerts_iff t_id t_created t_updated st :
  alerts (saveNote t_id t_created t_updated st)
  = str "Please enter a title" :: alerts st
  ↔ Forall (λ c, isWhiteSpace c = true) (editorTitle st).
Proof.
  rewrite <- blank_iff. split.
  - intros H. destruct (decide (blank (editorTitle st))) as [Hb|Hb]; [done|].
    exfalso. unfold saveNote in H. rewrite (not_blank_truthy _ Hb) in H.
    simpl in H. destruct (currentNote st); simpl in H;
      apply (f_equal length) in H; simpl in H; lia.
  - intros Hb. by rewrite saveNote_blank.
Qed.

(** Three notes are made, the blank one is refused. *)
Lemma run_never_blank_title_witness :
  ¬ blank
      (title
         (deref
            (run [NewNote; TypeTitle (str " "); SaveNote 1 1 1;
                  TypeTitle (str "a"); SaveNote 2 2 2] setup) 1%positive)).
Proof.
  apply (run_never_blank_title
           [NewNote; TypeTitle (str " "); SaveNote 1 1 1;
            TypeTitle (str "a"); SaveNote 2 2 2] 1%positive).
  vm_compute. left.
Defined.

(** ** How the methods compose *)

(** X6. Opening a note and saving at once, with nothing typed.  When
    the title of the note passes the check of [saveNote], the note keeps
    its title and content and only [updatedAt] is renewed: [editNote]
    copies the two fields into the draft and [saveNote] assigns them
    back; the array is unchanged and the editor is closed.  When the
    title is blank, as the title of a note loaded from the store can be,
    the save is refused: the alert is raised, no note changes and the
    editor stays open on the note. *)
Theorem editNote_saveNote t_id t_created t_updated st l :
  l ∈ dom (heap st) →
  let st' := saveNote t_id t_created t_updated (editNote l st) in
  (¬ blank (title (deref st l)) →
     deref st' l
     = mkNote (id (deref st l)) (title (deref st l)) (content (deref st l))
         (createdAt (deref st l)) (toISOString t_updated)
     ∧ (∀ l', l' ≠ l → deref st' l' = deref st l')
     ∧ notes st' = notes st
     ∧ editorClosed st'
     ∧ alerts st' = alerts st)
  ∧ (blank (title (deref st l)) →
     st' = alert (str "Please enter a title") (editNote l st)
     ∧ (∀ l', deref st' l' = deref st l')
     ∧ notes st' = notes st
     ∧ showEditor st' = true ∧ currentNote st' = Some l
     ∧ editorTitle st' = title (deref st l)
     ∧ editorContent st' = content (deref st l)).
Proof.
  intros Hl st'. subst st'. split.
  - intros Hb. rewrite (saveNote_update_eq _ _ _ _ l) by done.
    split; [|split; [|done]].
    + unfold deref at 1. simpl.
      by rewrite (deref_alter_eq st) by done.
    + intros l' Hne. unfold deref at 1. simpl.
      by apply (deref_alter_ne st).
  - intros Hb. by rewrite saveNote_blank.
Qed.

(** The note of [groceries] is opened and saved at 3000. *)
Lemma editNote_saveNote_witness :
  deref (saveNote 0 0 3000 (editNote 1%positive (create groceries setup)))
    1%positive
  = mkNote 1000 (str "Groceries") (str "milk eggs bread")
      (str "1970-01-01T00:00:01.000Z") (str "1970-01-01T00:00:03.000Z").
Proof.
  pose proof (editNote_saveNote 0 0 3000 (create groceries setup)
                1%positive) as H.
  cbv zeta in H. destruct H as [H _]; [by vm_compute|].
  destruct H as [H _]; [not_blank|]. exact H.
Defined.

(** X7. A note that was just created is removed again by a confirmed
    deletion of its id, and the collection is the one before the
    creation, provided no other note has that id. *)
Theorem create_deleteNote c st :
  ¬ blank (c_title c) → allocated st → c_now c ∉ ids st →
  collection (deleteNote true (c_now c) (create c st)) = collection st.
Proof.
  intros Hb Ha Hid.
  destruct (create_collection c st Hb Ha) as [Hcol _].
  pose proof (deleteNote_selects (c_now c) (create c st)) as Hsel.
  rewrite Hcol in Hsel. eapply selects_unique; [exact Hsel|].
  apply selects_skip; [by intros H; apply H|].
  apply selects_all. intros n Hn Heq. apply Hid.
  unfold ids. rewrite <- Heq. by apply list_elem_of_fmap_2.
Qed.

(** A second note is created at 2000 and deleted. *)
Lemma create_deleteNote_witness :
  collection
    (deleteNote true 2000
       (create (mkCreation (str "b") [] 2000 2000 2000)
          (create groceries setup)))
  = collection (create groceries setup).
Proof.
  apply (create_deleteNote (mkCreation (str "b") [] 2000 2000 2000)
           (create groceries setup)).
  - not_blank.
  - apply allocated_run with (acts := [NewNote; TypeTitle (str "Groceries");
      TypeContent (str "milk eggs bread"); SaveNote 1000 1000 1000]).
    apply allocated_setup.
  - vm_compute. intros H. apply list_elem_of_singleton in H. discriminate.
Defined.

(** ** More on the filtered view *)

Lemma filter_sublist_impl {A} (f g : A → bool) (xs : list A) :
  (∀ x, f x = true → g x = true) →
  List.filter f xs `sublist_of` List.filter g xs.
Proof.
  intros Hfg. induction xs as [|x xs IH]; simpl; [constructor|].
  destruct (f x) eqn:Hf.
  - rewrite (Hfg x Hf). by constructor.
  - destruct (g x); [by constructor | done].
Qed.

Lemma filter_sublist {A} (f : A → bool) (xs : list A) :
  List.filter f xs `sublist_of` xs.
Proof.
  induction xs as [|x xs IH]; simpl; [constructor|].
  destruct (f x); by constructor.
Qed.

Lemma occursIn_refl s : occursIn s s.
Proof. exists [], []. by rewrite app_nil_r. Qed.

Lemma occursIn_trans q r s : occursIn q r → occursIn r s → occursIn q s.
Proof.
  intros (a & b & ->) (c & d & ->). exists (c ++ a), (b ++ d).
  by rewrite <- !app_assoc.
Qed.

Section FilterMore.

Variable toLowerCase : jsstring → jsstring.

(** X8. A note of the collection is always among the results of a search
    for its whole title or its whole content, whatever the case mapping
    does. *)
Theorem filteredNotes_finds_own_text st l :
  l ∈ notes st →
  searchQuery st = title (deref st l)
  ∨ searchQuery st = content (deref st l) →
  l ∈ filteredNotes toLowerCase st.
Proof.
  intros Hl Hq. unfold filteredNotes. destruct (negb _); [done|].
  apply list_elem_of_In, filter_In. split; [by apply list_elem_of_In|].
  apply matchesQuery_spec. unfold mentions, containsIgnoringCase.
  destruct Hq as [->| ->]; [left | right]; apply occursIn_refl.
Qed.

(** When the old query in lower case occurs in the new one in lower
    case, the results of the new query are results of the old one. *)
Lemma filteredNotes_sublist st q q' :
  q' ≠ [] → occursIn (toLowerCase q) (toLowerCase q') →
  filteredNotes toLowerCase (set_searchQuery q' st)
  `sublist_of` filteredNotes toLowerCase (set_searchQuery q st).
Proof.
  intros Hne Hin. unfold filteredNotes. simpl.
  destruct q' as [|c q']; [done|]. simpl.
  destruct (negb (truthy q)); [apply filter_sublist|].
  apply filter_sublist_impl. intros l.
  change (deref (set_searchQuery _ st) l) with (deref st l).
  rewrite !matchesQuery_spec. unfold mentions, containsIgnoringCase.
  intros [H|H]; [left | right]; by eapply occursIn_trans.
Qed.

End FilterMore.

(** The note of [groceries] is found by "Groceries". *)
Lemma filteredNotes_finds_own_text_witness :
  1%positive
  ∈ filteredNotes toLowerASCII
      (set_searchQuery (str "Groceries") (create groceries setup)).
Proof.
  apply (filteredNotes_finds_own_text toLowerASCII
           (set_searchQuery (str "Groceries") (create groceries setup))).
  - vm_compute. left.
  - by left.
Defined.

(** X9. Typing more never finds more when the old query in lower case
    occurs in the new one in lower case, whatever the case mapping is.
    With [toLowerCase] this is so when the new query is Basic Latin text
    and the old query is a part of it.  It is not so for every text: a
    capital sigma is mapped by its place in the word, and the query
    omicron sigma finds nothing in a collection whose one note, titled
    omicron sigma alpha, is found by the query omicron sigma alpha. *)
Theorem filteredNotes_narrows :
  (∀ (f : jsstring → jsstring) st q q',
     q' ≠ [] → occursIn (f q) (f q') →
     filteredNotes f (set_searchQuery q' st)
     `sublist_of` filteredNotes f (set_searchQuery q st))
  ∧ (∀ st q q',
       basicLatin q' → occursIn q q' →
       filteredNotes toLowerCase (set_searchQuery q' st)
       `sublist_of` filteredNotes toLowerCase (set_searchQuery q st))
  ∧ (let st := create osa setup in
     occursIn [0x39F; 0x3A3]%N [0x39F; 0x3A3; 0x391]%N
     ∧ filteredNotes toLowerCase
         (set_searchQuery [0x39F; 0x3A3; 0x391]%N st) = notes st
     ∧ notes st ≠ []
     ∧ filteredNotes toLowerCase (set_searchQuery [0x39F; 0x3A3]%N st)
       = []).
Proof.
  split; [exact filteredNotes_sublist|]. split.
  - intros st q q' Hq' (a & b & ->).
    apply basicLatin_app in Hq' as [Ha Hq'].
    apply basicLatin_app in Hq' as [Hq Hb].
    destruct q as [|c q].
    { unfold filteredNotes at 2. simpl.
      unfold filteredNotes. simpl.
      destruct (negb _); [done | apply filter_sublist]. }
    apply filteredNotes_sublist; [by destruct a|].
    rewrite !toLowerCase_basicLatin
      by (try done; by repeat (apply basicLatin_app; split)).
    unfold toLowerASCII. rewrite !fmap_app. by eexists _, _.
  - cbv zeta. split; [by exists [], [0x391%N]|]. by vm_compute.
Qed.

(** "egg" is a part of "eggs". *)
Lemma filteredNotes_narrows_witness :
  filteredNotes toLowerCase
    (set_searchQuery (str "eggs") (create groceries setup))
  `sublist_of`
  filteredNotes toLowerCase
    (set_searchQuery (str "egg") (create groceries setup)).
Proof.
  destruct filteredNotes_narrows as (_ & H & _). apply H.
  - unfold basicLatin. simpl. repeat constructor.
  - by exists [], (str "s").
Defined.

(** ** More on loading *)

Lemma allocNotes_lookup ns (h : gmap loc Note) l :
  l ∈ dom h → (allocNotes ns h).1 !! l = h !! l.
Proof.
  revert h. induction ns as [|n ns IH]; intros h Hl; simpl; [done|].
  specialize (IH (<[fresh (dom h) := n]> h)).
  destruct (allocNotes ns (<[fresh (dom h) := n]> h)) as [h' ls].
  simpl in *. rewrite IH.
  - apply lookup_insert_ne. intros Heq. rewrite <- Heq in Hl.
    by apply is_fresh in Hl.
  - rewrite dom_insert_L. by apply elem_of_union_r.
Qed.

Lemma allocNotes_collection ns (h : gmap loc Note) :
  (λ l, (allocNotes ns h).1 !!! l) <$> (allocNotes ns h).2 = ns.
Proof.
  revert h. induction ns as [|n ns IH]; intros h; simpl; [done|].
  specialize (IH (<[fresh (dom h) := n]> h)).
  pose proof (allocNotes_lookup ns (<[fresh (dom h) := n]> h)
                (fresh (dom h))) as Hl.
  destruct (allocNotes ns (<[fresh (dom h) := n]> h)) as [h' ls].
  simpl in *. f_equal; [|done].
  apply lookup_total_correct. rewrite Hl; [apply lookup_insert_eq|].
  rewrite dom_insert_L. apply elem_of_union_l. by apply elem_of_singleton.
Qed.

(** ** More on formatting *)

Lemma applyFormat_content format (a b : nat) st :
  (a ≤ b)%nat → (b ≤ length (editorContent st))%nat →
  editorContent (applyFormat format a b st)
  = take a (editorContent st)
    ++ formattedText format (take (b - a) (drop a (editorContent st)))
    ++ drop b (editorContent st).
Proof.
  intros Hab Hb. unfold applyFormat. simpl.
  by rewrite substring_prefix, substringFrom_drop, substring_ordered.
Qed.

(** X11. For a selection within the content, [applyFormat] puts the
    selected characters between [*] and [*] for ['italic'], after [# ]
    for ['heading'] and after the bullet mark of the source and a space
    for ['bullet']; the text before and after the selection is as it
    was, and the three pieces make up the old content. *)
Theorem applyFormat_marks (selectionStart selectionEnd : nat) st :
  (selectionStart ≤ selectionEnd)%nat →
  (selectionEnd ≤ length (editorContent st))%nat →
  let before := take selectionStart (editorContent st) in
  let selected :=
    take (selectionEnd - selectionStart)
      (drop selectionStart (editorContent st)) in
  let after := drop selectionEnd (editorContent st) in
  editorContent st = before ++ selected ++ after
  ∧ editorContent (applyFormat (str "italic") selectionStart selectionEnd st)
    = before ++ str "*" ++ selected ++ str "*" ++ after
  ∧ editorContent (applyFormat (str "heading") selectionStart selectionEnd st)
    = before ++ str "# " ++ selected ++ after
  ∧ editorContent (applyFormat (str "bullet") selectionStart selectionEnd st)
    = before ++ bulletMark ++ str " " ++ selected ++ after.
Proof.
  intros Hse He before selected after. subst before selected after.
  split; [|split; [|split]].
  - rewrite <- (take_drop selectionStart (editorContent st)) at 1.
    f_equal.
    rewrite <- (take_drop (selectionEnd - selectionStart)
                  (drop selectionStart (editorContent st))) at 1.
    f_equal. rewrite drop_drop. f_equal. lia.
  - rewrite applyFormat_content by done. unfold formattedText. simpl.
    by rewrite <- ?app_assoc.
  - rewrite applyFormat_content by done. unfold formattedText. simpl.
    by rewrite <- ?app_assoc.
  - rewrite applyFormat_content by done. unfold formattedText. simpl.
    by rewrite <- ?app_assoc.
Qed.

(** "eggs" in italics. *)
Lemma applyFormat_marks_witness :
  editorContent (applyFormat (str "italic") 5 9 groceriesOpen)
  = str "milk *eggs* bread".
Proof.
  apply (applyFormat_marks 5 9 groceriesOpen); vm_compute; lia.
Defined.

(** X12. The [switch] of [applyFormat] has no default case: with any
    format other than the four it knows, the selected characters are
    deleted and nothing is put in their place. *)
Theorem applyFormat_unknown_format format
    (selectionStart selectionEnd : nat) st :
  format ∉ [str "bold"; str "italic"; str "heading"; str "bullet"] →
  (selectionStart ≤ selectionEnd)%nat →
  (selectionEnd ≤ length (editorContent st))%nat →
  editorContent (applyFormat format selectionStart selectionEnd st)
  = take selectionStart (editorContent st)
    ++ drop selectionEnd (editorContent st).
Proof.
  intros Hf Hse He. rewrite applyFormat_content by done.
  unfold formattedText, jsstring_eqb.
  rewrite !bool_decide_eq_false_2; [done|..];
    intros ->; apply Hf; repeat first [by left | right].
Qed.

(** "underline" is no format of the switch: "eggs" goes. *)
Lemma applyFormat_unknown_format_witness :
  editorContent (applyFormat (str "underline") 5 9 groceriesOpen)
  = str "milk  bread".
Proof.
  apply (applyFormat_unknown_format (str "underline") 5 9 groceriesOpen).
  - intros H. repeat (apply elem_of_cons in H as [H|H]; [discriminate|]).
    by apply elem_of_nil in H.
  - lia.
  - vm_compute. lia.
Defined.

(** ** Keyboard shortcuts *)

(** X13. The three tests of [handleKeyboardShortcuts] never combine.
    With the editor closed only Alt with [n] does something: it opens
    an empty draft.  With the editor open Ctrl or Meta with [s] is
    [saveNote], [Escape] is [closeEditor], and Alt with [n] does
    nothing: the draft is not lost.  [preventDefault] is called for the
    first two shortcuts and not for [Escape].  So a key press changes
    the stored notes only when it is the save shortcut with the editor
    open. *)
Theorem handleKeyboardShortcuts_cases t_id t_created t_updated e st :
  handleKeyboardShortcuts t_id t_created t_updated e st
  = (if showEditor st then
       if (ctrlKey e || metaKey e) && jsstring_eqb (key e) (str "s")
       then (saveNote t_id t_created t_updated st, true)
       else if jsstring_eqb (key e) (str "Escape")
       then (closeEditor st, false)
       else (st, false)
     else if altKey e && jsstring_eqb (key e) (str "n")
     then (createNewNote st, true)
     else (st, false))
  ∧ ((ctrlKey e || metaKey e) && jsstring_eqb (key e) (str "s")
       && showEditor st = false →
     collection (handleKeyboardShortcuts t_id t_created t_updated e st).1
     = collection st).
Proof.
  assert (handleKeyboardShortcuts t_id t_created t_updated e st
    = if showEditor st then
        if (ctrlKey e || metaKey e) && jsstring_eqb (key e) (str "s")
        then (saveNote t_id t_created t_updated st, true)
        else if jsstring_eqb (key e) (str "Escape")
        then (closeEditor st, false)
        else (st, false)
      else if altKey e && jsstring_eqb (key e) (str "n")
      then (createNewNote st, true)
      else (st, false)) as Heq.
  { unfold handleKeyboardShortcuts, jsstring_eqb.
    destruct (showEditor st) eqn:Hshow;
      destruct (altKey e), (ctrlKey e), (metaKey e); simpl;
      repeat (case_bool_decide; simpl; rewrite ?Hshow; simpl);
      try done;
      match goal with
      | H1 : key e = _, H2 : key e = _ |- _ =>
          rewrite H1 in H2; discriminate H2
      end. }
  split; [done|]. intros H. rewrite Heq.
  destruct (showEditor st).
  - rewrite andb_true_r in H. rewrite H.
    by destruct (jsstring_eqb (key e) (str "Escape")).
  - by destruct (altKey e && jsstring_eqb (key e) (str "n")).
Qed.

(** Escape on an open draft, and Alt with [n] on it. *)
Lemma handleKeyboardShortcuts_cases_witness :
  collection
    (handleKeyboardShortcuts 0 0 0
       (mkKeyboardEvent false false false (str "Escape")) groceriesDraft).1
  = collection groceriesDraft.
Proof.
  apply (handleKeyboardShortcuts_cases 0 0 0
           (mkKeyboardEvent false false false (str "Escape"))
           groceriesDraft).
  reflexivity.
Defined.
(** ** Word count *)

Section WordCount.

Implicit Types (s w piece : jsstring).

Lemma wordStarts_spaces afterSpace w :
  Forall (λ c, isWhiteSpace c = true) w → wordStarts afterSpace w = 0%nat.
Proof.
  intros H. revert afterSpace.
  induction H as [|c w Hc _ IH]; intros r; simpl; [done|]. by rewrite Hc.
Qed.

Lemma wordStarts_app_space afterSpace s c t :
  isWhiteSpace c = true →
  wordStarts afterSpace (s ++ c :: t)
  = (wordStarts afterSpace s + wordStarts true t)%nat.
Proof.
  intros Hc. revert afterSpace.
  induction s as [|d s IH]; intros r; simpl.
  - by rewrite Hc.
  - destruct (isWhiteSpace d); rewrite IH; lia.
Qed.

Lemma wordStarts_app_spaces afterSpace s w :
  Forall (λ c, isWhiteSpace c = true) w →
  wordStarts afterSpace (s ++ w) = wordStarts afterSpace s.
Proof.
  intros Hw. destruct Hw as [|c w Hc Hw]; [by rewrite app_nil_r|].
  rewrite wordStarts_app_space by done.
  rewrite (wordStarts_spaces true w) by done. lia.
Qed.

Lemma trimStart_decomp s :
  ∃ w, s = w ++ trimStart s ∧ Forall (λ c, isWhiteSpace c = true) w.
Proof.
  induction s as [|c s (w & Hs & Hw)]; simpl; [by exists []|].
  destruct (isWhiteSpace c) eqn:Hc.
  - exists (c :: w). split; [simpl; by f_equal | by constructor].
  - by exists [].
Qed.

Lemma trimEnd_decomp s :
  ∃ w, s = trimEnd s ++ w ∧ Forall (λ c, isWhiteSpace c = true) w.
Proof.
  destruct (trimStart_decomp (rev s)) as (w & Hs & Hw).
  exists (rev w). split.
  - unfold trimEnd. rewrite <- rev_app_distr, <- Hs.
    by rewrite rev_involutive.
  - apply Forall_forall. intros c Hin. rewrite Forall_forall in Hw.
    apply Hw. apply list_elem_of_In. apply list_elem_of_In in Hin.
    by apply in_rev.
Qed.

Lemma wordStarts_spaces_app w s :
  Forall (λ c, isWhiteSpace c = true) w →
  wordStarts true (w ++ s) = wordStarts true s.
Proof. induction 1 as [|c w Hc _ IH]; simpl; [done|]. by rewrite Hc. Qed.

Lemma countWords_trim s : countWords (trim s) = countWords s.
Proof.
  unfold countWords, trim.
  destruct (trimEnd_decomp (trimStart s)) as (w & Hs & Hw).
  destruct (trimStart_decomp s) as (w' & Hs' & Hw').
  transitivity (wordStarts true (trimStart s)).
  - transitivity (wordStarts true (trimEnd (trimStart s) ++ w)).
    + by rewrite wordStarts_app_spaces.
    + by rewrite <- Hs.
  - transitivity (wordStarts true (w' ++ trimStart s)).
    + by rewrite wordStarts_spaces_app.
    + by rewrite <- Hs'.
Qed.

Lemma splitSpaces_count inRun piece s :
  (inRun = true → piece = []) →
  length (List.filter (λ word, (0 <? length word)%nat) (splitSpaces inRun piece s))
  = match piece with
    | [] => wordStarts true s
    | _ :: _ => S (wordStarts false s)
    end.
Proof.
  revert inRun piece. induction s as [|c s IH]; intros r piece Hr; simpl.
  - destruct piece as [|d piece]; [done|].
    simpl. rewrite length_app. simpl.
    by replace (0 <? length (rev piece) + 1)%nat with true
      by (symmetry; apply Nat.ltb_lt; lia).
  - destruct (isWhiteSpace c).
    + destruct r.
      * rewrite (Hr eq_refl). by rewrite IH.
      * simpl. destruct piece as [|d piece].
        -- simpl. by rewrite IH.
        -- simpl. rewrite length_app. simpl.
           replace (0 <? length (rev piece) + 1)%nat with true
             by (symmetry; apply Nat.ltb_lt; lia).
           simpl. by rewrite IH.
    + rewrite IH by done. by destruct piece.
Qed.

Lemma split_spaces_count s :
  length (List.filter (λ word, (0 <? length word)%nat) (split_spaces s))
  = countWords s.
Proof. by apply (splitSpaces_count false []). Qed.

End WordCount.

(** X14. [getWordCount] counts the words of the text: the places where
    a character that is no white space stands at the start or after
    white space.  The [trim] and the [filter] of the source only remove
    the empty pieces of the [split]. *)
Theorem getWordCount_countWords text :
  getWordCount text = countWords text.
Proof.
  unfold getWordCount. by rewrite split_spaces_count, countWords_trim.
Qed.

(** X15. The word count of a blank text is 0, and the counts of two
    texts add up when white space is put between them; white space
    around a text does not count. *)
Theorem getWordCount_additive :
  (∀ text, blank text → getWordCount text = 0%nat)
  ∧ (∀ a c b, isWhiteSpace c = true →
       getWordCount (a ++ c :: b)
       = (getWordCount a + getWordCount b)%nat)
  ∧ (∀ text, getWordCount (trim text) = getWordCount text).
Proof.
  assert (∀ text, getWordCount text = countWords text) as Hcount.
  { intros text. unfold getWordCount.
    by rewrite split_spaces_count, countWords_trim. }
  split; [|split].
  - intros text Hb. rewrite Hcount.
    apply wordStarts_spaces. by apply blank_iff.
  - intros a c b Hc. rewrite !Hcount. by apply wordStarts_app_space.
  - intros text. rewrite !Hcount. apply countWords_trim.
Qed.

(** "milk eggs" and "bread" make three words. *)
Lemma getWordCount_additive_witness :
  getWordCount (str "milk eggs" ++ 10%N :: str "bread") = 3%nat.
Proof.
  destruct getWordCount_additive as (_ & H & _).
  by rewrite H.
Defined.

(** ** The preview of a card *)

(** X16. The preview of a note is its content when that has at most 150
    characters, and its first 150 characters followed by three dots
    otherwise; it never has more than 153 characters. *)
Theorem notePreview_spec note :
  ((length (content note) ≤ 150)%nat → notePreview note = content note)
  ∧ ((150 < length (content note))%nat →
     notePreview note = take 150 (content note) ++ str "...")
  ∧ (length (notePreview note) ≤ 153)%nat.
Proof.
  unfold notePreview. rewrite substring_prefix.
  split; [|split].
  - intros H. rewrite firstn_all2 by done.
    replace (150 <? length (content note))%nat with false
      by (symmetry; apply Nat.ltb_ge; lia).
    apply app_nil_r.
  - intros H. by replace (150 <? length (content note))%nat with true
      by (symmetry; apply Nat.ltb_lt; lia).
  - rewrite length_app, length_take.
    assert (length (if (150 <? length (content note))%nat
                    then str "..." else []) ≤ 3)%nat
      by (destruct (150 <? length (content note))%nat; vm_compute; lia).
    lia.
Qed.
(** ** Relative dates *)

(** X17. [formatDate] reads the age [now - date] of a valid date in
    whole units, rounded down.  Under a minute, and for every date in
    the future, it says "Just now"; then the minutes from 1 to 59, the
    hours from 1 to 23 and the days from 1 to 6; from seven days on it
    prints the date, with the year only when that is not the year of
    [now].  An invalid date gives "Invalid Date". *)
Theorem formatDate_ranges env now dateString :
  (Date_parse env dateString = None →
     formatDate env now dateString = str "Invalid Date")
  ∧ (∀ date, Date_parse env dateString = Some date →
     let age := now - date in
     (age < 60000 → formatDate env now dateString = str "Just now")
     ∧ (60000 ≤ age < 3600000 →
        formatDate env now dateString
        = numberToString (age / 60000) ++ str "m ago"
        ∧ 1 ≤ age / 60000 ≤ 59)
     ∧ (3600000 ≤ age < 86400000 →
        formatDate env now dateString
        = numberToString (age / 3600000) ++ str "h ago"
        ∧ 1 ≤ age / 3600000 ≤ 23)
     ∧ (86400000 ≤ age < 604800000 →
        formatDate env now dateString
        = numberToString (age / 86400000) ++ str "d ago"
        ∧ 1 ≤ age / 86400000 ≤ 6)
     ∧ (604800000 ≤ age →
        formatDate env now dateString
        = toLocaleDateString env date
            (negb (getFullYear env date =? getFullYear env now)))).
Proof.
  unfold formatDate. split; [by intros ->|].
  intros date ->. cbv zeta.
  assert (∀ d, 0 < d → ∀ k, ((now - date) / d <? k) = (now - date <? k * d))
    as Hdiv.
  { intros d Hd k. destruct (Z.ltb_spec (now - date) (k * d)).
    - apply Z.ltb_lt. apply Z.div_lt_upper_bound; lia.
    - apply Z.ltb_ge. apply Z.div_le_lower_bound; lia. }
  assert (∀ d lo hi, 0 < d → lo * d ≤ now - date < (hi + 1) * d →
            lo ≤ (now - date) / d ≤ hi) as Hbound.
  { intros d lo hi Hd [Hlo Hhi]. split.
    - apply Z.div_le_lower_bound; lia.
    - apply Z.lt_succ_r. apply Z.div_lt_upper_bound; lia. }
  rewrite !Hdiv by lia.
  split; [|split; [|split; [|split]]]; intros H.
  - by replace (now - date <? 1 * 60000) with true
      by (symmetry; apply Z.ltb_lt; lia).
  - replace (now - date <? 1 * 60000) with false
      by (symmetry; apply Z.ltb_ge; lia).
    replace (now - date <? 60 * 60000) with true
      by (symmetry; apply Z.ltb_lt; lia).
    split; [done|]. apply Hbound; lia.
  - replace (now - date <? 1 * 60000) with false
      by (symmetry; apply Z.ltb_ge; lia).
    replace (now - date <? 60 * 60000) with false
      by (symmetry; apply Z.ltb_ge; lia).
    replace (now - date <? 24 * 3600000) with true
      by (symmetry; apply Z.ltb_lt; lia).
    split; [done|]. apply Hbound; lia.
  - replace (now - date <? 1 * 60000) with false
      by (symmetry; apply Z.ltb_ge; lia).
    replace (now - date <? 60 * 60000) with false
      by (symmetry; apply Z.ltb_ge; lia).
    replace (now - date <? 24 * 3600000) with false
      by (symmetry; apply Z.ltb_ge; lia).
    replace (now - date <? 7 * 86400000) with true
      by (symmetry; apply Z.ltb_lt; lia).
    split; [done|]. apply Hbound; lia.
  - replace (now - date <? 1 * 60000) with false
      by (symmetry; apply Z.ltb_ge; lia).
    replace (now - date <? 60 * 60000) with false
      by (symmetry; apply Z.ltb_ge; lia).
    replace (now - date <? 24 * 3600000) with false
      by (symmetry; apply Z.ltb_ge; lia).
    by replace (now - date <? 7 * 86400000) with false
      by (symmetry; apply Z.ltb_ge; lia).
Qed.

(** A note that is 59 minutes and 59.999 seconds old. *)
Lemma formatDate_ranges_witness :
  formatDate sampleDateEnv 3600000 (str "1") = str "59m ago".
Proof.
  destruct (formatDate_ranges sampleDateEnv 3600000 (str "1")) as [_ H].
  destruct (H 1) as (_ & Hm & _); [by vm_compute|].
  destruct Hm as [-> _]; [lia|]. by vm_compute.
Defined.
(** ** Writing the collection and reading it back *)

Section Numbers.

Lemma digitsOf_app ds rest acc n :
  Forall (λ c, Parse.isDigit c = true) ds →
  Parse.digitsOf acc n (ds ++ rest)
  = Parse.digitsOf (fold_left digitValue ds acc) (n + length ds) rest.
Proof.
  intros H. revert acc n.
  induction H as [|c ds Hc _ IH]; intros acc n; simpl.
  - by rewrite Nat.add_0_r.
  - rewrite Hc, IH. f_equal. lia.
Qed.

Lemma isDigit_digit d :
  0 ≤ d < 10 → Parse.isDigit (Z.to_N (48 + d)) = true
               ∧ Z.of_N (Z.to_N (48 + d) - 48) = d.
Proof.
  intros Hd. unfold Parse.isDigit. split.
  - apply andb_true_iff. split; apply N.leb_le; lia.
  - lia.
Qed.

Lemma decimal_digits fuel n :
  0 ≤ n → Forall (λ c, Parse.isDigit c = true) (decimal fuel n).
Proof.
  revert n. induction fuel as [|fuel IH]; intros n Hn; simpl; [constructor|].
  apply Forall_app. split.
  - destruct (n <? 10); [constructor|]. apply IH. by apply Z.div_pos.
  - constructor; [|constructor]. apply isDigit_digit.
    by apply Z.mod_pos_bound.
Qed.

Lemma decimal_value fuel n acc :
  0 ≤ n < 10 ^ Z.of_nat fuel →
  fold_left digitValue (decimal fuel n) acc
  = acc * 10 ^ Z.of_nat (length (decimal fuel n)) + n.
Proof.
  revert n acc. induction fuel as [|fuel IH]; intros n acc Hn.
  { simpl in *. lia. }
  simpl decimal. rewrite fold_left_app, length_app. simpl.
  unfold digitValue at 1.
  destruct (isDigit_digit (n mod 10)) as [_ ->];
    [by apply Z.mod_pos_bound|].
  rewrite Nat2Z.inj_add, Z.pow_add_r by lia.
  destruct (Z.ltb_spec n 10).
  - simpl. rewrite Z.mod_small by lia. lia.
  - rewrite IH.
    + pose proof (Z.div_mod n 10). lia.
    + split; [apply Z.div_pos; lia|].
      apply Z.div_lt_upper_bound; [lia|].
      rewrite Nat2Z.inj_succ, Z.pow_succ_r in Hn by lia. lia.
Qed.

Lemma decimal_head fuel n :
  0 < n < 10 ^ Z.of_nat fuel →
  ∃ c ds, decimal fuel n = c :: ds ∧ Parse.isDigit c = true ∧ c ≠ 48%N.
Proof.
  revert n. induction fuel as [|fuel IH]; intros n Hn.
  { simpl in *. lia. }
  simpl. destruct (Z.ltb_spec n 10).
  - eexists _, []. split; [done|]. split.
    + apply isDigit_digit. by apply Z.mod_pos_bound.
    + rewrite Z.mod_small by lia. lia.
  - destruct (IH (n / 10)) as (c & ds & -> & Hc & Hc').
    + split; [apply Z.div_str_pos; lia|].
      apply Z.div_lt_upper_bound; [lia|].
      rewrite Nat2Z.inj_succ, Z.pow_succ_r in Hn by lia. lia.
    + by eexists _, _.
Qed.

Lemma decimalOf_fuel n :
  0 ≤ n → n < 10 ^ Z.of_nat (S (Z.to_nat (Z.log2 n))).
Proof.
  intros Hn. rewrite Nat2Z.inj_succ, Z2Nat.id by apply Z.log2_nonneg.
  destruct (Z.eq_dec n 0) as [->|Hne]; [done|].
  pose proof (Z.log2_spec n ltac:(lia)) as [_ H].
  eapply Z.lt_le_trans; [exact H|].
  apply Z.pow_le_mono_l. split; [lia|lia].
Qed.

(** The digits of [n] read back as [n]; nothing but a digit follows. *)
Lemma digitsOf_decimalOf n c rest :
  0 ≤ n → Parse.isDigit c = false →
  ∃ k, Parse.digitsOf 0 0 (decimalOf n ++ c :: rest) = (n, S k, c :: rest).
Proof.
  intros Hn Hc. unfold decimalOf.
  set (fuel := S (Z.to_nat (Z.log2 n))).
  rewrite digitsOf_app by by apply decimal_digits.
  rewrite decimal_value by (split; [done | by apply decimalOf_fuel]).
  simpl Parse.digitsOf. rewrite Hc. simpl.
  exists (length (if n <? 10 then []
                  else decimal (Z.to_nat (Z.log2 n)) (n / 10))).
  f_equal. f_equal. subst fuel. simpl. rewrite length_app. simpl. lia.
Qed.

End Numbers.
Section NumberRoundTrip.

Lemma isDigit_not_minus c : Parse.isDigit c = true → N.eqb c 45 = false.
Proof.
  unfold Parse.isDigit. intros [H1 H2]%andb_true_iff.
  apply N.leb_le in H1, H2. apply N.eqb_neq. lia.
Qed.

(** What [Parse.number] does after the sign, on digits with no leading
    zero that a comma follows. *)
Lemma number_digits (neg : bool) n rest :
  0 < n →
  ∃ c ds, decimalOf n = c :: ds ∧ Parse.isDigit c = true
  ∧ Parse.number
      ((if neg then [45%N] else []) ++ decimalOf n ++ 44%N :: rest)
    = Some (JNumber (if neg then - n else n) 0, 44%N :: rest).
Proof.
  intros Hn.
  destruct (decimal_head (S (Z.to_nat (Z.log2 n))) n)
    as (c & ds & Hds & Hc & Hc48).
  { split; [done|]. apply decimalOf_fuel. lia. }
  destruct (digitsOf_decimalOf n 44 rest) as [k Hk]; [lia|done|].
  fold (decimalOf n) in Hds. exists c, ds. split; [done|]. split; [done|].
  rewrite Hds in *. apply N.eqb_neq in Hc48.
  unfold Parse.number. destruct neg; simpl app; cbv beta iota.
  - simpl N.eqb. cbv beta iota. rewrite Hc48, Hc. simpl app in Hk.
    rewrite Hk. done.
  - rewrite (isDigit_not_minus c Hc). cbv beta iota.
    rewrite Hc48, Hc. simpl app in Hk. rewrite Hk. done.
Qed.

(** A safe integer is written with all its digits. *)
Lemma numberToString_safe z :
  safeInteger z →
  numberToString z
  = if z <? 0 then 45%N :: decimalOf (- z) else decimalOf z.
Proof.
  unfold safeInteger, numberToString, unsignedToString. intros Hz.
  destruct (Z.ltb_spec z 0).
  - destruct (Z.ltb_spec (- z) (2 ^ 53)); [done|lia].
  - destruct (Z.ltb_spec z (2 ^ 53)); [done|lia].
Qed.

(** A positive integer below [2 ^ 53] is a Number. *)
Lemma integerValue_safe z : 0 < z < 2 ^ 53 → integerValue z 0 = Some z.
Proof.
  intros Hz. unfold integerValue. change (0 <=? 0) with true. cbv iota.
  rewrite Z.pow_0_r, Z.mul_1_r. unfold roundToNumber.
  change (Z.log2 1) with 0. rewrite Z.sub_0_r.
  pose proof (Z.log2_spec z ltac:(lia)) as [Hlo Hhi].
  pose proof (Z.log2_nonneg z) as Hnn.
  set (a := Z.log2 z) in *.
  assert (a ≤ 52) as Ha.
  { apply Z.lt_succ_r. apply (Z.pow_lt_mono_r_iff 2); lia. }
  cbv zeta. rewrite (proj2 (Z.leb_le 0 a)) by done.
  rewrite Z.mul_1_l, (proj2 (Z.ltb_ge z (2 ^ a))) by done.
  rewrite Z.max_l by lia.
  assert ((1024 <=? a) = false) as -> by (apply Z.leb_gt; lia).
  assert ((a =? 1023) = false) as -> by (apply Z.eqb_neq; lia).
  cbn [orb andb].
  destruct (Z.leb_spec 0 (a - 52)) as [Ht|Ht].
  - assert (a - 52 = 0) as -> by lia.
    rewrite Z.pow_0_r, Z.div_1_r, Z.mod_1_r, Z.mul_0_r.
    change (1 <? 0) with false. change (1 =? 0) with false.
    cbn [orb andb]. unfold integral. change (0 <=? 0) with true.
    cbv iota. by rewrite Z.pow_0_r, Z.mul_1_r.
  - rewrite Z.div_1_r, Z.mod_1_r, Z.mul_0_r.
    change (1 <? 0) with false. change (1 =? 0) with false.
    cbn [orb andb]. unfold integral.
    rewrite (proj2 (Z.leb_gt 0 (a - 52))) by done.
    assert (0 < 2 ^ (- (a - 52))) by (apply Z.pow_pos_nonneg; lia).
    rewrite Z.mod_mul by lia. rewrite Z.div_mul by lia. done.
Qed.

(** The text of a safe integer denotes it. *)
Lemma asInteger_safe z : safeInteger z → asInteger (JNumber z 0) = Some z.
Proof.
  unfold safeInteger, asInteger. intros Hz.
  destruct (Z.eqb_spec z 0) as [->|Hne]; [done|].
  destruct (Z.ltb_spec z 0).
  - rewrite integerValue_safe by lia. simpl. f_equal. lia.
  - apply integerValue_safe. lia.
Qed.

(** A number that a comma follows is read back as it was written. *)
Lemma number_numberToString z rest :
  safeInteger z →
  Parse.number (numberToString z ++ 44%N :: rest)
  = Some (JNumber z 0, 44%N :: rest)
  ∧ ∃ c s, numberToString z = c :: s
           ∧ (c = 45%N ∨ Parse.isDigit c = true).
Proof.
  intros Hsafe. rewrite (numberToString_safe z Hsafe).
  destruct (Z.ltb_spec z 0) as [Hz|Hz].
  - destruct (number_digits true (- z) rest) as (c & ds & Hds & Hc & H);
      [lia|].
    simpl app in H. rewrite Z.opp_involutive in H.
    split; [done|]. eexists _, _. split; [done | by left].
  - destruct (Z.eq_dec z 0) as [->|Hne].
    + split; [done|]. eexists _, _. split; [done | by right].
    + destruct (number_digits false z rest) as (c & ds & Hds & Hc & H);
        [lia|].
      split; [done|]. rewrite Hds. eexists _, _. split; [done | by right].
Qed.

End NumberRoundTrip.
Section StringRoundTrip.

Import Stringify.

Lemma hexValue_hexDigit d :
  (d < 16)%N → Parse.hexValue (hexDigit d) = Some d.
Proof.
  intros Hd. unfold hexDigit, Parse.hexValue, Parse.isDigit.
  destruct (N.ltb_spec d 10).
  - replace (N.leb 48 (48 + d) && N.leb (48 + d) 57) with true.
    + f_equal. lia.
    + symmetry. apply andb_true_iff. split; apply N.leb_le; lia.
  - replace (N.leb 48 (87 + d) && N.leb (87 + d) 57) with false.
    2:{ symmetry. apply andb_false_iff. right. apply N.leb_gt. lia. }
    replace (N.leb 65 (87 + d) && N.leb (87 + d) 70) with false.
    2:{ symmetry. apply andb_false_iff. right. apply N.leb_gt. lia. }
    replace (N.leb 97 (87 + d) && N.leb (87 + d) 102) with true.
    + f_equal. lia.
    + symmetry. apply andb_true_iff. split; apply N.leb_le; lia.
Qed.

Lemma hex_digits_value c :
  (c < 65536)%N →
  (c / 4096 mod 16 * 4096 + c / 256 mod 16 * 256 + c / 16 mod 16 * 16
   + c mod 16 = c)%N.
Proof. intros Hc. zify. Z.to_euclidean_division_equations. lia. Qed.

Lemma chars_unicodeEscape c tail r rest :
  (c < 65536)%N → Parse.chars tail = Some (r, rest) →
  Parse.chars (unicodeEscape c ++ tail) = Some (c :: r, rest).
Proof.
  intros Hc Htail. unfold unicodeEscape. simpl.
  rewrite !hexValue_hexDigit by (apply N.mod_lt; lia).
  rewrite Htail. by rewrite hex_digits_value.
Qed.

Lemma chars_quoteChar c tail r rest :
  Parse.chars tail = Some (r, rest) →
  Parse.chars (quoteChar c ++ tail) = Some (c :: r, rest).
Proof.
  intros Htail. unfold quoteChar.
  repeat match goal with
  | |- context [N.eqb c ?k] =>
      destruct (N.eqb_spec c k) as [->|?]; [simpl; by rewrite Htail|]
  end.
  destruct (N.ltb c 32 || isLeadSurrogate c || isTrailSurrogate c) eqn:He.
  - apply chars_unicodeEscape; [|done].
    unfold isLeadSurrogate, isTrailSurrogate in He.
    apply orb_true_iff in He as [He|He];
      [apply orb_true_iff in He as [He|He]|].
    + apply N.ltb_lt in He. lia.
    + apply andb_true_iff in He as [_ He]. apply N.leb_le in He. lia.
    + apply andb_true_iff in He as [_ He]. apply N.leb_le in He. lia.
  - apply orb_false_iff in He as [He _].
    apply orb_false_iff in He as [He _].
    simpl. rewrite Htail, He.
    by rewrite (proj2 (N.eqb_neq c 34)), (proj2 (N.eqb_neq c 92)).
Qed.

Lemma isLeadSurrogate_literal c :
  isLeadSurrogate c = true →
  N.eqb c 34 = false ∧ N.eqb c 92 = false ∧ N.ltb c 32 = false
  ∧ (c < 65536)%N.
Proof.
  unfold isLeadSurrogate. intros [H1 H2]%andb_true_iff.
  apply N.leb_le in H1, H2.
  repeat split; [apply N.eqb_neq | apply N.eqb_neq | apply N.ltb_ge |];
    lia.
Qed.

Lemma isTrailSurrogate_literal c :
  isTrailSurrogate c = true →
  N.eqb c 34 = false ∧ N.eqb c 92 = false ∧ N.ltb c 32 = false.
Proof.
  unfold isTrailSurrogate. intros [H1 H2]%andb_true_iff.
  apply N.leb_le in H1, H2.
  repeat split; [apply N.eqb_neq | apply N.eqb_neq | apply N.ltb_ge];
    lia.
Qed.

Lemma quoteChars_cons c s :
  quoteChars (c :: s)
  = if isLeadSurrogate c then
      match s with
      | d :: s' =>
          if isTrailSurrogate d then c :: d :: quoteChars s'
          else unicodeEscape c ++ quoteChars s
      | [] => unicodeEscape c
      end
    else quoteChar c ++ quoteChars s.
Proof. by destruct s. Qed.

(** The characters [quoteChars] writes, up to the closing quote, are read
    back as the string. *)
Lemma chars_quoteChars s rest :
  Parse.chars (quoteChars s ++ 34%N :: rest) = Some (s, rest).
Proof.
  remember (length s) as n eqn:Hn. revert s Hn.
  induction n as [n IH] using lt_wf_ind. intros s ->.
  destruct s as [|c s]; [done|]. rewrite quoteChars_cons.
  destruct (isLeadSurrogate c) eqn:Hlead.
  - destruct (isLeadSurrogate_literal c Hlead) as (H34 & H92 & H32 & H16).
    destruct s as [|d s].
    + by apply chars_unicodeEscape.
    + destruct (isTrailSurrogate d) eqn:Htrail.
      * destruct (isTrailSurrogate_literal d Htrail) as (D34 & D92 & D32).
        simpl. rewrite H34, H92, H32, D34, D92, D32.
        rewrite (IH (length s)); [done | simpl; lia | done].
      * rewrite <- app_assoc. apply chars_unicodeEscape; [done|].
        eapply IH; [|reflexivity]. simpl. lia.
  - rewrite <- app_assoc. apply chars_quoteChar.
    eapply IH; [|reflexivity]. simpl. lia.
Qed.

End StringRoundTrip.
Section ValueRoundTrip.

Import Stringify.

Lemma value_string fuel t rest :
  Parse.value (S fuel) (quote t ++ rest) = Some (JString t, rest).
Proof.
  unfold quote. simpl. rewrite <- app_assoc. simpl.
  by rewrite chars_quoteChars.
Qed.

Lemma value_number fuel z rest :
  safeInteger z →
  Parse.value (S fuel) (numberToString z ++ 44%N :: rest)
  = Some (JNumber z 0, 44%N :: rest).
Proof.
  intros Hsafe.
  destruct (number_numberToString z rest Hsafe)
    as [Hnum (c & s & Hs & Hc)].
  rewrite Hs in *. simpl app in *.
  assert ((N.eqb c 32 || N.eqb c 9 || N.eqb c 10 || N.eqb c 13) = false
          ∧ N.eqb c 110 = false ∧ N.eqb c 116 = false
          ∧ N.eqb c 102 = false ∧ N.eqb c 34 = false
          ∧ N.eqb c 91 = false ∧ N.eqb c 123 = false)
    as (Hws & H1 & H2 & H3 & H4 & H5 & H6).
  { destruct Hc as [->|Hc]; [done|].
    unfold Parse.isDigit in Hc. apply andb_true_iff in Hc as [Ha Hb].
    apply N.leb_le in Ha, Hb.
    assert (∀ k, c ≠ k → N.eqb c k = false) as Hne
      by (intros k; apply N.eqb_neq).
    rewrite !Hne by lia. done. }
  simpl Parse.value. rewrite Hws. cbv iota.
  rewrite H1, H2, H3, H4, H5, H6. done.
Qed.

Lemma members_last fuel k vs v rest :
  Parse.value fuel (vs ++ 125%N :: rest) = Some (v, 125%N :: rest) →
  Parse.members (S fuel) (quote k ++ 58%N :: vs ++ 125%N :: rest)
  = Some ([(k, v)], rest).
Proof.
  intros Hv. unfold quote. simpl. rewrite <- app_assoc. simpl.
  rewrite chars_quoteChars. simpl. by rewrite Hv.
Qed.

Lemma members_more fuel k vs v more l rest :
  Parse.value fuel (vs ++ 44%N :: more) = Some (v, 44%N :: more) →
  Parse.members fuel more = Some (l, rest) →
  Parse.members (S fuel) (quote k ++ 58%N :: vs ++ 44%N :: more)
  = Some ((k, v) :: l, rest).
Proof.
  intros Hv Hl. unfold quote. simpl. rewrite <- app_assoc. simpl.
  rewrite chars_quoteChars. simpl. rewrite Hv. simpl. by rewrite Hl.
Qed.

Lemma note_layout n rest :
  note n ++ rest
  = 123%N
    :: quote (str "id") ++ 58%N :: numberToString (id n) ++ 44%N
    :: quote (str "title") ++ 58%N :: quote (title n) ++ 44%N
    :: quote (str "content") ++ 58%N :: quote (content n) ++ 44%N
    :: quote (str "createdAt") ++ 58%N :: quote (createdAt n) ++ 44%N
    :: quote (str "updatedAt") ++ 58%N :: quote (updatedAt n) ++ 125%N
    :: rest.
Proof. unfold note. by rewrite <- !app_assoc. Qed.

(** A note object is read back as the object with its five properties. *)
Lemma value_note fuel n rest :
  safeInteger (id n) →
  Parse.value (7 + fuel) (note n ++ rest) = Some (noteJSON n, rest).
Proof.
  intros Hsafe. rewrite note_layout.
  change (7 + fuel)%nat with (S (S (S (S (S (S (S fuel))))))).
  change (Parse.value (S (S (S (S (S (S (S fuel))))))) (123%N :: ?s))
    with (match Parse.members (S (S (S (S (S (S fuel)))))) s with
          | Some (l, r) => Some (JObject l, r)
          | None => None
          end).
  erewrite members_more; [reflexivity | by apply value_number |].
  erewrite members_more; [reflexivity | apply value_string |].
  erewrite members_more; [reflexivity | apply value_string |].
  erewrite members_more; [reflexivity | apply value_string |].
  apply members_last. apply value_string.
Qed.

End ValueRoundTrip.
Section ArrayRoundTrip.

Import Stringify.

Lemma note_head n : ∃ s, note n = 123%N :: 34%N :: s.
Proof. by eexists. Qed.

Lemma elements_head n ns : ∃ s, elements (n :: ns) = 123%N :: s.
Proof. destruct ns; by eexists. Qed.

Lemma elements_cons n n' ns :
  elements (n :: n' :: ns) = note n ++ 44%N :: elements (n' :: ns).
Proof. done. Qed.

Lemma elements_S fuel s :
  Parse.elements (S fuel) s
  = match Parse.value fuel s with
    | Some (v, rest) =>
        match Parse.skipWs rest with
        | c :: rest' =>
            if N.eqb c 93 then Some ([v], rest')
            else if N.eqb c 44 then
              match Parse.elements fuel rest' with
              | Some (l, rest'') => Some (v :: l, rest'')
              | None => None
              end
            else None
        | [] => None
        end
    | None => None
    end.
Proof. done. Qed.

Lemma parse_elements ns fuel rest :
  Forall (λ n, safeInteger (id n)) ns →
  ns ≠ [] →
  Parse.elements (length ns + 7 + fuel) (elements ns ++ 93%N :: rest)
  = Some (noteJSON <$> ns, rest).
Proof.
  induction ns as [|n ns IH]; intros Hsafe Hne; [done|]. clear Hne.
  apply Forall_cons in Hsafe as [Hn Hsafe]. specialize (IH Hsafe).
  destruct ns as [|n' ns].
  - change (length [n] + 7 + fuel)%nat with (S (7 + fuel)).
    change (elements [n]) with (note n).
    by rewrite elements_S, value_note.
  - rewrite elements_cons, <- app_assoc.
    replace (length (n :: n' :: ns) + 7 + fuel)%nat
      with (S (7 + (length (n' :: ns) + fuel))) by (simpl; lia).
    rewrite elements_S, value_note by done.
    replace (7 + (length (n' :: ns) + fuel))%nat
      with (length (n' :: ns) + 7 + fuel)%nat by lia.
    rewrite <- app_comm_cons.
    change (Parse.skipWs (44%N :: ?x)) with (44%N :: x). cbv iota.
    change (N.eqb 44 93) with false. change (N.eqb 44 44) with true.
    cbv iota. by rewrite IH.
Qed.

Lemma length_elements ns : (2 * length ns ≤ length (elements ns))%nat.
Proof.
  induction ns as [|n ns IH]; [done|]. destruct ns as [|n' ns].
  - change (elements [n]) with (note n).
    destruct (note_head n) as [s ->]. cbn [length]. lia.
  - rewrite elements_cons, length_app.
    destruct (note_head n) as [s ->]. cbn [length] in *. lia.
Qed.

(** [JSON.parse] reads what [JSON.stringify] wrote. *)
Lemma JSON_parse_stringify ns :
  Forall (λ n, safeInteger (id n)) ns →
  JSON_parse (JSON_stringify ns) = Some (JArray (noteJSON <$> ns)).
Proof.
  intros Hsafe. unfold JSON_parse, JSON_stringify.
  destruct ns as [|n ns]; [done|].
  change (str "[" ++ elements (n :: ns) ++ str "]")
    with (91%N :: elements (n :: ns) ++ [93%N]).
  assert (∃ fuel,
            (2 * length (91%N :: elements (n :: ns) ++ [93%N]) + 2
             = S (length (n :: ns) + 7 + fuel))%nat) as [fuel ->].
  { pose proof (length_elements (n :: ns)) as Hlen.
    cbn [length] in *. rewrite length_app. cbn [length].
    exists (2 * (S (length (elements (n :: ns)) + 1)) + 1
            - (S (length ns) + 7))%nat.
    lia. }
  pose proof (parse_elements (n :: ns) fuel [] Hsafe ltac:(done)) as Hel.
  destruct (elements_head n ns) as [s Hs]. rewrite Hs in *.
  rewrite <- app_comm_cons in Hel.
  cbn [Parse.value Parse.skipWs N.eqb Pos.eqb orb app].
  cbn [app] in Hel. by rewrite Hel.
Qed.

Lemma property_five (v1 v2 v3 v4 v5 : JSON) :
  let ms := [(str "id", v1); (str "title", v2); (str "content", v3);
             (str "createdAt", v4); (str "updatedAt", v5)] in
  property (str "id") ms = Some v1
  ∧ property (str "title") ms = Some v2
  ∧ property (str "content") ms = Some v3
  ∧ property (str "createdAt") ms = Some v4
  ∧ property (str "updatedAt") ms = Some v5.
Proof. by vm_compute. Qed.

Lemma ownKeys_five (v1 v2 v3 v4 v5 : JSON) :
  ownKeys []
    [(str "id", v1); (str "title", v2); (str "content", v3);
     (str "createdAt", v4); (str "updatedAt", v5)]
  = noteKeys.
Proof. by vm_compute. Qed.

Lemma asNote_noteJSON n :
  safeInteger (id n) → asNote (noteJSON n) = Some n.
Proof.
  destruct n as [i t c ca ua]. unfold asNote, noteJSON.
  cbn [id title content createdAt updatedAt]. intros Hsafe.
  rewrite ownKeys_five, bool_decide_eq_true_2 by done.
  destruct (property_five (JNumber i 0) (JString t) (JString c)
              (JString ca) (JString ua)) as (-> & -> & -> & -> & ->).
  change (Some (JNumber i 0) ≫= asInteger) with (asInteger (JNumber i 0)).
  by rewrite asInteger_safe.
Qed.

Lemma asNotes_noteJSON ns :
  Forall (λ n, safeInteger (id n)) ns →
  asNotes (JArray (noteJSON <$> ns)) = Some ns.
Proof.
  unfold asNotes. induction ns as [|n ns IH]; [done|].
  intros [Hn Hsafe]%Forall_cons. specialize (IH Hsafe).
  rewrite fmap_cons.
  change (mapM asNote (noteJSON n :: (noteJSON <$> ns)))
    with (asNote (noteJSON n) ≫= λ y,
          mapM asNote (noteJSON <$> ns) ≫= λ k, mret (y :: k)).
  by rewrite asNote_noteJSON, IH.
Qed.

End ArrayRoundTrip.

(** ** Loading a stored collection *)

Lemma JSON_parse_truthy savedNotes v :
  JSON_parse savedNotes = Some v → truthy savedNotes = true.
Proof. by destruct savedNotes. Qed.

(** X10. [JSON.parse] has accepted the stored item.  When its value is
    an array of note objects as the watcher writes them, with safe
    integers as ids, the hook runs to its end and the collection is that
    array, note for note and in the stored order, each note an object of
    its own; the editor stays closed.  When the value is no array, or an
    array with an element that is not an object of exactly the five
    properties of a note in their order, the hook also runs to its end
    and [notes] holds the value as it is: nothing checks its shape. *)
Theorem onMounted_loads savedNotes v :
  JSON_parse savedNotes = Some v →
  (∀ ns,
     v = JArray (noteJSON <$> ns) → Forall (λ n, safeInteger (id n)) ns →
     ∃ st, onMounted (Some savedNotes) setup = Completed st
           ∧ collection st = ns
           ∧ NoDup (notes st)
           ∧ currentNote st = None ∧ showEditor st = false)
  ∧ ((∀ l, v ≠ JArray l) →
     onMounted (Some savedNotes) setup = CompletedUntyped v)
  ∧ (∀ l x,
       v = JArray l → x ∈ l →
       (∀ ms, x = JObject ms → ownKeys [] ms ≠ noteKeys) →
       onMounted (Some savedNotes) setup = CompletedUntyped v).
Proof.
  intros Hparse. unfold onMounted.
  rewrite (JSON_parse_truthy _ _ Hparse), Hparse. split; [|split].
  - intros ns -> Hsafe. rewrite asNotes_noteJSON by done.
    pose proof (allocNotes_collection ns (heap setup)) as Hcol.
    pose proof (allocNotes_spec ns (heap setup)) as Hspec.
    destruct (allocNotes ns (heap setup)) as [h ls].
    destruct Hspec as (_ & Hnd & _). by eexists.
  - intros Hv. destruct v; try done. by destruct (Hv elements).
  - intros l x -> Hx Hkeys. unfold asNotes.
    rewrite mapM_None_2; [done|]. apply Exists_exists. exists x.
    split; [done|]. unfold asNote. destruct x as [| | | | |ms]; try done.
    by rewrite bool_decide_eq_false_2 by by apply Hkeys.
Qed.

(** A stored array of one note; the stored number 42; a stored array of
    [null]; and a note whose properties are in another order. *)
Lemma onMounted_loads_witness :
  (∃ st,
     onMounted
       (Some (quoted "[{'id':7,'title':'a','content':'b',
                       'createdAt':'c','updatedAt':'d'}]")) setup
     = Completed st
     ∧ collection st = [mkNote 7 (str "a") (str "b") (str "c") (str "d")])
  ∧ onMounted (Some (str "42")) setup = CompletedUntyped (JNumber 42 0)
  ∧ onMounted (Some (str "[null]")) setup = CompletedUntyped (JArray [JNull])
  ∧ ∃ v,
      onMounted
        (Some (quoted "[{'title':'a','id':7,'content':'b',
                        'createdAt':'c','updatedAt':'d'}]")) setup
      = CompletedUntyped v.
Proof.
  split; [|split; [|split]].
  - destruct (onMounted_loads
      (quoted "[{'id':7,'title':'a','content':'b',
                       'createdAt':'c','updatedAt':'d'}]")
      (JArray [noteJSON (mkNote 7 (str "a") (str "b") (str "c") (str "d"))]))
      as [H _]; [by vm_compute|].
    destruct (H [mkNote 7 (str "a") (str "b") (str "c") (str "d")])
      as (st & Hst & Hcol & _); [done| |by exists st].
    constructor; [|constructor]. unfold safeInteger. simpl. lia.
  - apply (onMounted_loads (str "42") (JNumber 42 0)); [by vm_compute|].
    by intros l.
  - destruct (onMounted_loads (str "[null]") (JArray [JNull]))
      as (_ & _ & H); [by vm_compute|].
    apply (H [JNull] JNull); [done | left | by intros ms].
  - eexists.
    destruct (onMounted_loads
      (quoted "[{'title':'a','id':7,'content':'b',
                        'createdAt':'c','updatedAt':'d'}]")
      (JArray [JObject [(str "title", JString (str "a"));
         (str "id", JNumber 7 0); (str "content", JString (str "b"));
         (str "createdAt", JString (str "c"));
         (str "updatedAt", JString (str "d"))]]))
      as (_ & _ & H); [by vm_compute|].
    eapply H; [done | left |]. intros ms [= <-]. by vm_compute.
Defined.

(** X18. What the watcher writes is read back as it was: for notes
    whose ids are integers a number holds exactly, [JSON.parse] accepts
    the text of [JSON.stringify] and the value it gives is the same array
    of notes, with the same ids, titles, contents and timestamps in the
    same order, whatever characters the strings hold. *)
Theorem JSON_round_trip ns :
  Forall (λ n, safeInteger (id n)) ns →
  ∃ v, JSON_parse (JSON_stringify ns) = Some v ∧ asNotes v = Some ns.
Proof.
  intros Hsafe. exists (JArray (noteJSON <$> ns)).
  split; [by apply JSON_parse_stringify | by apply asNotes_noteJSON].
Qed.

(** The text of [awkwardNote] and of a second note is read back. *)
Lemma JSON_round_trip_witness :
  ∃ v, JSON_parse (JSON_stringify [awkwardNote; mkNote (-7) [] [] [] []])
       = Some v
       ∧ asNotes v = Some [awkwardNote; mkNote (-7) [] [] [] []].
Proof.
  apply JSON_round_trip.
  repeat constructor; by vm_compute.
Defined.

(** X19. For a collection whose ids are safe integers, as the readings
    of [Date.now()] are: a component that is mounted on what the watcher
    stored has the collection the watcher was given.  The hook runs to
    its end and the notes are the same, in the same order. *)
Theorem notesWatcher_onMounted st p :
  Forall (λ n, safeInteger (id n)) (collection st) →
  let p' := (notesWatcher false (collection st) p).1 in
  storedNotes p' = Some (JSON_stringify (collection st))
  ∧ ∃ st', onMounted (storedNotes p') setup = Completed st'
           ∧ collection st' = collection st.
Proof.
  intros Hsafe p'.
  assert (storedNotes p' = Some (JSON_stringify (collection st))) as ->.
  { subst p'. unfold notesWatcher. by destruct (negb _). }
  split; [done|]. unfold onMounted.
  rewrite JSON_parse_stringify, asNotes_noteJSON by done.
  pose proof (allocNotes_collection (collection st) (heap setup)) as H.
  destruct (allocNotes (collection st) (heap setup)) as [h ls].
  by eexists.
Qed.

Lemma notesWatcher_onMounted_witness :
  ∃ st',
    onMounted
      (storedNotes
         (notesWatcher false (collection (create groceries setup))
            (initialPersistence None)).1) setup
    = Completed st'
    ∧ collection st' = collection (create groceries setup).
Proof.
  apply (notesWatcher_onMounted (create groceries setup)
           (initialPersistence None)).
  assert (collection (create groceries setup) = [noteOf groceries]) as ->
    by (vm_compute; reflexivity).
  constructor; [|constructor]. unfold safeInteger. simpl. lia.
Defined.

(** X20. The watcher runs for collections whose ids are safe integers,
    one after the other.  The save indicator is not shown by the first
    run, whatever set it off, and is shown by every later one, each of
    which sets a timer of 1500 ms; the store holds the text of the last
    collection.  When [setItem] throws, the watcher changes nothing: the
    next run still counts as the first. *)
Theorem watchAll_indicator item ns nss :
  Forall (Forall (λ n, safeInteger (id n))) (ns :: nss) →
  let p := watchAll (ns :: nss) (initialPersistence item) in
  showSaveIndicator p = bool_decide (nss ≠ [])
  ∧ timeouts p = replicate (length nss) 1500
  ∧ storedNotes p = Some (JSON_stringify (List.last (ns :: nss) ns))
  ∧ isInitialLoad p = false
  ∧ ∀ q ms, notesWatcher true ms q = (q, true).
Proof.
  intros _. cbv zeta. unfold watchAll. cbn [fold_left].
  assert (∀ nss q ns0,
    isInitialLoad q = false →
    let r := fold_left (λ p ns, (notesWatcher false ns p).1) nss q in
    showSaveIndicator r
    = (if nss is [] then showSaveIndicator q else true)
    ∧ timeouts r = replicate (length nss) 1500 ++ timeouts q
    ∧ storedNotes r
      = (if nss is [] then storedNotes q
         else Some (JSON_stringify (List.last nss ns0)))
    ∧ isInitialLoad r = false) as H.
  { clear. induction nss as [|ms nss IH]; intros q ns0 Hq; [done|].
    cbv zeta. cbn [fold_left].
    assert ((notesWatcher false ms q).1
            = mkPersistence (Some (JSON_stringify ms)) false true
                (1500 :: timeouts q)) as ->
      by (unfold notesWatcher; by rewrite Hq).
    destruct (IH (mkPersistence (Some (JSON_stringify ms)) false true
                    (1500 :: timeouts q)) ns0 eq_refl)
      as (H1 & H2 & H3 & H4).
    rewrite H1, H2, H3, H4.
    split; [by destruct nss|]. split.
    - simpl. generalize (length nss) (timeouts q). clear.
      intros n l. induction n as [|n IH]; simpl; congruence.
    - split; [|done]. by destruct nss. }
  destruct (H nss (mkPersistence (Some (JSON_stringify ns)) false false [])
              ns eq_refl) as (H1 & H2 & H3 & H4).
  change ((notesWatcher false ns (initialPersistence item)).1)
    with (mkPersistence (Some (JSON_stringify ns)) false false []).
  rewrite H1, H2, H3, H4, app_nil_r.
  split; [by destruct nss|]. split; [done|]. split; [|done].
  by destruct nss.
Qed.

(** The watcher runs for the first note and for the second. *)
Lemma watchAll_indicator_witness :
  showSaveIndicator
    (watchAll [[noteOf groceries]; [awkwardNote; noteOf groceries]]
       (initialPersistence None)) = true
  ∧ showSaveIndicator
      (watchAll [[noteOf groceries]] (initialPersistence None)) = false.
Proof.
  assert (safeInteger (id (noteOf groceries))) as Hg
    by (unfold safeInteger; simpl; lia).
  assert (safeInteger (id awkwardNote)) as Ha
    by (unfold safeInteger; simpl; lia).
  split.
  - destruct (watchAll_indicator None [noteOf groceries]
                [[awkwardNote; noteOf groceries]]) as [-> _]; [|done].
    by repeat constructor.
  - destruct (watchAll_indicator None [noteOf groceries] [])
      as [-> _]; [|done].
    by repeat constructor.
Defined.
